(** * transcripcion.py: a shallow embedding of [transcribir_mp3_a_txt]

    The program is a thin orchestration around three collaborators: the
    [pathlib] path algebra, the POSIX file system and the Whisper model.
    The first two are modelled executably below (CPython 3.8 to 3.11,
    POSIX flavour, a file system without symbolic links or permission
    failures); the model is an oracle supplied by the caller of the
    theorems.  The program itself runs in a small state-and-exception
    monad over a [World] holding the file system, the working directory
    and a trace of the effects performed, in order. *)

From Stdlib Require Import NArith ZArith Ascii String Lia.
From Stdlib Require Strings.Byte.
From stdpp Require Import base option list strings gmap.

Local Open Scope string_scope.
Local Open Scope list_scope.

(** ** Python byte-wise string helpers (paths and option values) *)

Module Str.

(** [s.split(sep)] for a one-character separator: never returns []. *)
Fixpoint split (sep : ascii) (s : string) : list string :=
  match s with
  | EmptyString => [EmptyString]
  | String c s' =>
      if Ascii.eqb c sep then EmptyString :: split sep s'
      else match split sep s' with
           | [] => [String c EmptyString]
           | x :: xs => String c x :: xs
           end
  end.

(** [sep.join(l)] *)
Fixpoint join (sep : string) (l : list string) : string :=
  match l with
  | [] => EmptyString
  | [x] => x
  | x :: xs => x +:+ sep +:+ join sep xs
  end.

(** [s.lstrip(c)] for a single character [c]. *)
Fixpoint lstrip (c : ascii) (s : string) : string :=
  match s with
  | String a s' => if Ascii.eqb a c then lstrip c s' else s
  | EmptyString => EmptyString
  end.

(** [s.rfind(c)]: index of the last occurrence, [None] for Python's -1. *)
Fixpoint rfind (c : ascii) (s : string) : option nat :=
  match s with
  | EmptyString => None
  | String a s' =>
      match rfind c s' with
      | Some i => Some (S i)
      | None => if Ascii.eqb a c then Some 0 else None
      end
  end.

(** [s[:n]] and [s[n:]] *)
Fixpoint take (n : nat) (s : string) : string :=
  match n, s with
  | S n', String a s' => String a (take n' s')
  | _, _ => EmptyString
  end.

Fixpoint drop (n : nat) (s : string) : string :=
  match n, s with
  | S n', String _ s' => drop n' s'
  | _, _ => s
  end.

Definition startswith (c : ascii) (s : string) : bool :=
  match s with String a _ => Ascii.eqb a c | EmptyString => false end.

Definition contains (c : ascii) (s : string) : bool :=
  match rfind c s with Some _ => true | None => false end.

(** [c.lower()] on an ASCII letter; other bytes are left alone.  The
    only use is the comparison [s.lower() == "none"]: no character
    outside ASCII lowercases to one of the letters n, o, e, so the
    comparison agrees with Python's on UTF-8 encoded arguments. *)
Definition lower_ascii (c : ascii) : ascii :=
  let n := nat_of_ascii c in
  if (65 <=? n)%nat && (n <=? 90)%nat then ascii_of_nat (n + 32) else c.

Fixpoint lower (s : string) : string :=
  match s with
  | EmptyString => EmptyString
  | String c s' => String (lower_ascii c) (lower s')
  end.

End Str.

(** ** pathlib.PurePosixPath *)

Module Pathlib.

(** A parsed path: [root] is "", "/" or "//"; [parts] are the
    components after the root (CPython keeps the root as [_parts[0]];
    it is kept apart here). *)
Record Path := mkPath { root : string; parts : list string }.

#[global] Instance Path_eq_dec : EqDecision Path.
Proof. solve_decision. Defined.

(** [_PosixFlavour.splitroot] *)
Definition splitroot (part : string) : string * string :=
  if Str.startswith "/" part then
    let stripped_part := Str.lstrip "/" part in
    if (String.length part - String.length stripped_part =? 2)%nat
    then ("//", stripped_part)
    else ("/", stripped_part)
  else ("", part).

Definition keep_part (x : string) : bool :=
  negb (String.eqb x "") && negb (String.eqb x ".").

(** [Path(s)] for one string argument: [parse_parts] drops empty and
    "." components and keeps ".." components. *)
Definition Path_of_str (s : string) : Path :=
  let '(rt, rel) := splitroot s in
  mkPath rt (List.filter keep_part (Str.split "/" rel)).

(** [str(p)] *)
Definition str (p : Path) : string :=
  let s := root p +:+ Str.join "/" (parts p) in
  if String.eqb s "" then "." else s.

(** [p.name] *)
Definition name (p : Path) : string := List.last (parts p) "".

(** [p.suffix] *)
Definition suffix (p : Path) : string :=
  let nm := name p in
  match Str.rfind "." nm with
  | Some i =>
      if (0 <? i)%nat && (i <? String.length nm - 1)%nat
      then Str.drop i nm else ""
  | None => ""
  end.

(** [p.stem] *)
Definition stem (p : Path) : string :=
  let nm := name p in
  match Str.rfind "." nm with
  | Some i =>
      if (0 <? i)%nat && (i <? String.length nm - 1)%nat
      then Str.take i nm else nm
  | None => nm
  end.

(** [p.parent] *)
Definition parent (p : Path) : Path :=
  mkPath (root p) (List.removelast (parts p)).

(** [p.with_suffix(suffix)]; [inl msg] is [ValueError(msg)], with the
    text of the message abridged. *)
Definition with_suffix (p : Path) (suf : string) : string + Path :=
  if Str.contains "/" suf then inl ("Invalid suffix " +:+ suf)
  else if (negb (String.eqb suf "") && negb (Str.startswith "." suf))
          || String.eqb suf "."
  then inl ("Invalid suffix " +:+ suf)
  else
    let nm := name p in
    if String.eqb nm "" then inl (str p +:+ " has an empty name")
    else
      let old_suffix := suffix p in
      let nm' :=
        if String.eqb old_suffix "" then nm +:+ suf
        else Str.take (String.length nm - String.length old_suffix) nm +:+ suf in
      inr (mkPath (root p) (List.removelast (parts p) ++ [nm'])).

(** Paths that [Path_of_str] can produce carry no empty and no "."
    component. *)
Definition wf_path (p : Path) : Prop :=
  Forall (fun c => keep_part c = true) (parts p).

End Pathlib.

Import Pathlib.

(** ** Python [str] values: sequences of Unicode code points *)

Module Text.

Definition pystr := list N.

(** A Rocq ASCII literal read as a Python string. *)
Definition of_ascii (s : string) : pystr :=
  List.map N_of_ascii (list_ascii_of_string s).

(** [Py_UNICODE_ISSPACE]: the code points [str.strip()] removes. *)
Definition isspace (c : N) : bool :=
  ((0x09 <=? c) && (c <=? 0x0D) || (0x1C <=? c) && (c <=? 0x20)
   || (c =? 0x85) || (c =? 0xA0) || (c =? 0x1680)
   || (0x2000 <=? c) && (c <=? 0x200A)
   || (c =? 0x2028) || (c =? 0x2029) || (c =? 0x202F)
   || (c =? 0x205F) || (c =? 0x3000))%N.

Fixpoint lstrip (s : pystr) : pystr :=
  match s with
  | c :: s' => if isspace c then lstrip s' else s
  | [] => []
  end.

Definition rstrip (s : pystr) : pystr := List.rev (lstrip (List.rev s)).

(** [s.strip()] *)
Definition strip (s : pystr) : pystr := rstrip (lstrip s).

Definition byte_of_N (n : N) : Byte.byte :=
  match Byte.of_N n with Some b => b | None => Byte.x00 end.

(** The UTF-8 encoding of one code point; surrogates and values above
    U+10FFFF have none (Python raises [UnicodeEncodeError]). *)
Definition utf8_encode_cp (c : N) : option (list Byte.byte) :=
  (if c <? 0x80 then Some [byte_of_N c]
   else if c <? 0x800 then
     Some [byte_of_N (N.lor 0xC0 (N.shiftr c 6));
           byte_of_N (N.lor 0x80 (N.land c 0x3F))]
   else if c <? 0x10000 then
     if (0xD800 <=? c) && (c <=? 0xDFFF) then None
     else Some [byte_of_N (N.lor 0xE0 (N.shiftr c 12));
                byte_of_N (N.lor 0x80 (N.land (N.shiftr c 6) 0x3F));
                byte_of_N (N.lor 0x80 (N.land c 0x3F))]
   else if c <? 0x110000 then
     Some [byte_of_N (N.lor 0xF0 (N.shiftr c 18));
           byte_of_N (N.lor 0x80 (N.land (N.shiftr c 12) 0x3F));
           byte_of_N (N.lor 0x80 (N.land (N.shiftr c 6) 0x3F));
           byte_of_N (N.lor 0x80 (N.land c 0x3F))]
   else None)%N.

(** [s.encode("utf-8")] *)
Fixpoint utf8_encode (s : pystr) : option (list Byte.byte) :=
  match s with
  | [] => Some []
  | c :: s' =>
      match utf8_encode_cp c, utf8_encode s' with
      | Some b, Some bs => Some (b ++ bs)
      | _, _ => None
      end
  end.


End Text.

Import Text.

(** ** Python values held by the option and result dictionaries *)

#[warnings="-register-all"] Inductive pyval :=
| PNone
| PBool (b : bool)
| PInt (z : Z)
| PStr (s : pystr)
| PList (l : list pyval).

(** ** The world: file system, working directory, trace of effects *)

Inductive node :=
| File (data : list Byte.byte)
| Dir.

Inductive errno := ENOENT | EEXIST | ENOTDIR | EISDIR.

#[global] Instance errno_eq_dec : EqDecision errno.
Proof. solve_decision. Defined.

(** Locations are canonical absolute positions in the tree, innermost
    component first; [[]] is the root directory. *)
Inductive Event :=
| EMkdir (loc : list string)
| ELoadModel (name : string)
| ETranscribe (audio : string) (language : option string)
              (options : gmap string pyval)
| EOpenW (loc : list string)
| EWrite (loc : list string) (data : list Byte.byte)
| EPrint (line : string).

Record World := mkWorld {
  fs : gmap (list string) node;
  cwd : list string;
  trace : list Event
}.

Definition log (e : Event) (w : World) : World :=
  mkWorld (fs w) (cwd w) (trace w ++ [e]).

Definition set_node (loc : list string) (n : node) (w : World) : World :=
  mkWorld (<[loc := n]> (fs w)) (cwd w) (trace w).

(** ** Exceptions and the execution monad *)

Inductive exn :=
| FileNotFoundError (msg : string)
| OSError (e : errno) (filename : string)
| ValueError (msg : string)
| TypeError (msg : string)
| AttributeError (msg : string)
| UnicodeEncodeError (msg : string)
| RuntimeError (msg : string).

(** [except FileNotFoundError]: the class itself, or an [OSError] that
    CPython maps to it by errno. *)
Definition is_FileNotFoundError (e : exn) : bool :=
  match e with
  | FileNotFoundError _ | OSError ENOENT _ => true
  | _ => false
  end.

(** [except OSError] *)
Definition is_OSError (e : exn) : bool :=
  match e with
  | FileNotFoundError _ | OSError _ _ => true
  | _ => false
  end.

Inductive outcome (A : Type) :=
| Ok (a : A)
| Raise (e : exn).
Arguments Ok {A} a.
Arguments Raise {A} e.

Definition M (A : Type) : Type := World -> outcome A * World.

#[global] Instance M_ret : MRet M := fun A a w => (Ok a, w).

#[global] Instance M_bind : MBind M := fun A B f m w =>
  match m w with
  | (Ok a, w') => f a w'
  | (Raise e, w') => (Raise e, w')
  end.

Definition raise {A} (e : exn) : M A := fun w => (Raise e, w).

Definition gets {A} (f : World -> A) : M A := fun w => (Ok (f w), w).

Definition modify (f : World -> World) : M unit := fun w => (Ok tt, f w).

(** [try: m except Exception as e: h e] *)
Definition try_except {A} (m : M A) (h : exn -> M A) : M A := fun w =>
  match m w with
  | (Ok a, w') => (Ok a, w')
  | (Raise e, w') => h e w'
  end.

(** ** POSIX path resolution and the system calls the program reaches *)

Module Posix.

(** The root directory always exists. *)
Definition lookup_node (t : gmap (list string) node) (loc : list string)
  : option node :=
  match loc with
  | [] => Some Dir
  | _ => t !! loc
  end.

(** One component from a directory: ".." goes up (and stays at the
    root), any other name goes down. *)
Definition step (cur : list string) (c : string) : list string :=
  if String.eqb c ".." then List.tl cur else c :: cur.

(** Resolution of a component list from the directory [cur]: every
    component but the last must lead to an existing directory; the last
    one is only located, not looked up. *)
Fixpoint namei (t : gmap (list string) node) (cur : list string)
  (comps : list string) : errno + list string :=
  match comps with
  | [] => inr cur
  | c :: cs =>
      let nxt := step cur c in
      match cs with
      | [] => inr nxt
      | _ :: _ =>
          match lookup_node t nxt with
          | Some Dir => namei t nxt cs
          | Some (File _) => inl ENOTDIR
          | None => inl ENOENT
          end
      end
  end.

(** Where resolution of [p] starts: the root for an absolute path, the
    working directory otherwise. *)
Definition start (w : World) (p : Path) : list string :=
  if String.eqb (root p) "" then cwd w else [].

Definition locate (w : World) (p : Path) : errno + list string :=
  namei (fs w) (start w p) (parts p).

(** [os.stat(p)], reduced to the location and kind of the node. *)
Definition stat (w : World) (p : Path) : errno + (list string * node) :=
  match locate w p with
  | inl e => inl e
  | inr loc =>
      match lookup_node (fs w) loc with
      | Some n => inr (loc, n)
      | None => inl ENOENT
      end
  end.

(** [p.is_file()] and [p.is_dir()]: errors of [stat] read as [False]. *)
Definition is_file (w : World) (p : Path) : bool :=
  match stat w p with
  | inr (_, File _) => true
  | _ => false
  end.

Definition is_dir (w : World) (p : Path) : bool :=
  match stat w p with
  | inr (_, Dir) => true
  | _ => false
  end.

(** The bytes of the regular file [p] denotes, if it denotes one. *)
Definition read_bytes (w : World) (p : Path) : option (list Byte.byte) :=
  match stat w p with
  | inr (_, File d) => Some d
  | _ => None
  end.

(** [os.mkdir(p)] *)
Definition os_mkdir (p : Path) : M unit := fun w =>
  match locate w p with
  | inl e => (Raise (OSError e (str p)), w)
  | inr loc =>
      match lookup_node (fs w) loc with
      | Some _ => (Raise (OSError EEXIST (str p)), w)
      | None => (Ok tt, log (EMkdir loc) (set_node loc Dir w))
      end
  end.

(** [p.mkdir(parents=False, exist_ok=True)] *)
Definition mkdir_exist_ok (p : Path) : M unit :=
  try_except (os_mkdir p) (fun e =>
    if is_FileNotFoundError e then raise e
    else if is_OSError e then
      d ← gets (fun w => is_dir w p);
      if d : bool then mret tt else raise e
    else raise e).

(** [p.mkdir(parents=True, exist_ok=True)], by recursion on the parts of
    [p] from the last one: [self] is [rt] with the parts [rev rparts]
    and [self.parent] drops the head of [rparts]. *)
Fixpoint mkdir_parents (rt : string) (rparts : list string) : M unit :=
  let self := mkPath rt (List.rev rparts) in
  try_except (os_mkdir self) (fun e =>
    if is_FileNotFoundError e then
      match rparts with
      | [] => raise e
      | _ :: rparent =>
          _ ← mkdir_parents rt rparent;
          mkdir_exist_ok self
      end
    else if is_OSError e then
      d ← gets (fun w => is_dir w self);
      if d : bool then mret tt else raise e
    else raise e).

Definition mkdir (p : Path) : M unit :=
  mkdir_parents (root p) (List.rev (parts p)).

(** [open(p, "w")]: creates the file or truncates it; returns the
    location standing for the file object. *)
Definition open_w (p : Path) : M (list string) := fun w =>
  match locate w p with
  | inl e => (Raise (OSError e (str p)), w)
  | inr loc =>
      match lookup_node (fs w) loc with
      | Some Dir => (Raise (OSError EISDIR (str p)), w)
      | _ => (Ok loc, log (EOpenW loc) (set_node loc (File []) w))
      end
  end.

(** [p.write_text(data, encoding="utf-8")]: the file is opened first,
    then the whole text is encoded and written.  On POSIX the newline
    translation of text mode is the identity. *)
Definition write_text (p : Path) (data : pystr) : M unit :=
  loc ← open_w p;
  match utf8_encode data with
  | None => raise (UnicodeEncodeError "surrogates not allowed")
  | Some bs => modify (fun w => log (EWrite loc bs) (set_node loc (File bs) w))
  end.

(** Lexical normalisation: what [os.path.realpath] computes when no
    component is a symbolic link. *)
Definition normalize (cur : list string) (comps : list string) : list string :=
  List.fold_left step comps cur.

(** [p.resolve()] *)
Definition resolve (w : World) (p : Path) : Path :=
  mkPath "/" (List.rev (normalize (start w p) (parts p))).

(** A well-formed tree: every node hangs under an existing directory and
    no name is "..". *)
Definition wf_fs (t : gmap (list string) node) : Prop :=
  map_Forall (fun loc _ =>
    match loc with
    | [] => False
    | c :: l => String.eqb c ".." = false /\ lookup_node t l = Some Dir
    end) t.

(** The same check, by computation over the nodes of the tree. *)
Definition wf_nodeb (t : gmap (list string) node) (loc : list string) : bool :=
  match loc with
  | [] => false
  | c :: l =>
      negb (String.eqb c "..") &&
      match lookup_node t l with Some Dir => true | _ => false end
  end.

Definition wf_fsb (t : gmap (list string) node) : bool :=
  List.forallb (fun kv => wf_nodeb t (fst kv)) (map_to_list t).

Definition wf_world (w : World) : Prop :=
  wf_fs (fs w) /\ lookup_node (fs w) (cwd w) = Some Dir.

End Posix.

Import Posix.

(** ** The external model: [whisper.load_model] and [model.transcribe]

    Both are oracles.  They may read the world (the audio file) and
    either raise or return; they do not touch the modelled tree. *)

Record Whisper := mkWhisper {
  Model : Type;
  load_model : string -> World -> exn + Model;
  transcribe : Model -> string -> option string -> gmap string pyval ->
               World -> exn + gmap string pyval
}.

(** [whisper.load_model(modelo)] *)
Definition whisper_load_model (W : Whisper) (modelo : string) : M (Model W) :=
  fun w =>
    let w' := log (ELoadModel modelo) w in
    match load_model W modelo w' with
    | inl e => (Raise e, w')
    | inr m => (Ok m, w')
    end.

(** [modelo_whisper.transcribe(audio, language=lenguaje, **opciones)]:
    a key "language" among the forwarded options collides with the
    explicit keyword and the call itself raises [TypeError] (message
    abridged) before the model is entered. *)
Definition model_transcribe (W : Whisper) (modelo_whisper : Model W)
  (audio : string) (lenguaje : option string)
  (opciones : gmap string pyval) : M (gmap string pyval) :=
  match opciones !! "language" with
  | Some _ =>
      raise (TypeError "got multiple values for keyword argument 'language'")
  | None => fun w =>
      let w' := log (ETranscribe audio lenguaje opciones) w in
      match transcribe W modelo_whisper audio lenguaje opciones w' with
      | inl e => (Raise e, w')
      | inr resultado => (Ok resultado, w')
      end
  end.

(** [v.strip()] for whatever [resultado.get("text", "")] returned. *)
Definition py_strip (v : pyval) : M pystr :=
  match v with
  | PStr s => mret (strip s)
  | _ => raise (AttributeError "object has no attribute 'strip'")
  end.

(** ** transcripcion.py *)

(** [Union[str, Path]] and the coercion [Path(x)]. *)
Inductive PathLike :=
| AsStr (s : string)
| AsPath (p : Path).

Definition Path_ (x : PathLike) : Path :=
  match x with
  | AsStr s => Path_of_str s
  | AsPath p => p
  end.

Definition mensaje_no_encontrado (ruta_mp3 : Path) : string :=
  "No se encontró el archivo MP3: " +:+ str ruta_mp3.

Definition mensaje_vacia : string := "La transcripción resultó vacía.".

(** Lines 49 to 52: the destination, explicit or derived. *)
Definition destino (ruta_mp3 : Path) (ruta_txt : option PathLike) : M Path :=
  match ruta_txt with
  | None =>
      match with_suffix ruta_mp3 ".txt" with
      | inr p => mret p
      | inl msg => raise (ValueError msg)
      end
  | Some r => mret (Path_ r)
  end.

(** Lines 13 to 70.  The defaults [modelo="base"] and [lenguaje="es"]
    are the caller's: every argument is explicit here. *)
Definition transcribir_mp3_a_txt (W : Whisper)
  (ruta_mp3 : PathLike) (ruta_txt : option PathLike) (modelo : string)
  (lenguaje : option string) (opciones_transcripcion : gmap string pyval)
  : M Path :=
  let ruta_mp3 := Path_ ruta_mp3 in
  existe ← gets (fun w => is_file w ruta_mp3);
  if negb existe then raise (FileNotFoundError (mensaje_no_encontrado ruta_mp3))
  else
    ruta_txt ← destino ruta_mp3 ruta_txt;
    _ ← mkdir (parent ruta_txt);
    modelo_whisper ← whisper_load_model W modelo;
    resultado ← model_transcribe W modelo_whisper (str ruta_mp3) lenguaje
                  opciones_transcripcion;
    texto ← py_strip (default (PStr []) (resultado !! "text"));
    match texto with
    | [] => raise (ValueError mensaje_vacia)
    | _ :: _ =>
        _ ← write_text ruta_txt texto;
        gets (fun w => resolve w ruta_txt)
    end.

(** Lines 73 to 106: the command line, after [argparse] has filled the
    namespace (with "base" and "es" when the options are absent). *)
Module Cli.

Record Namespace := mkNamespace {
  audio : Path;
  salida : option Path;
  modelo : string;
  lenguaje : string
}.

Definition lenguaje_normalizado (arg : string) : option string :=
  if String.eqb (Str.lower arg) "none" then None else Some arg.

Definition main (W : Whisper) (args : Namespace) : M unit :=
  let lenguaje := lenguaje_normalizado (lenguaje args) in
  ruta_generada ← transcribir_mp3_a_txt W (AsPath (audio args))
                     (AsPath <$> salida args) (modelo args) lenguaje ∅;
  modify (log (EPrint ("Transcripción guardada en: " +:+ str ruta_generada))).

End Cli.

(** ** Vocabulary of the properties *)

(** [creates w dirs w1]: [w1] is [w] after making the directories
    [dirs], in that order, each at a place that held no node. *)
Inductive creates : World -> list (list string) -> World -> Prop :=
| creates_nil w : creates w [] w
| creates_cons w loc dirs w1 :
    lookup_node (fs w) loc = None ->
    creates (log (EMkdir loc) (set_node loc Dir w)) dirs w1 ->
    creates w (loc :: dirs) w1.

(** Every way of writing a lowercase ASCII word with each letter in
    either case: "none" in any letter case is a member of
    [any_case "none"]. *)
Definition upper_ascii (c : ascii) : ascii :=
  let n := nat_of_ascii c in
  if (97 <=? n)%nat && (n <=? 122)%nat then ascii_of_nat (n - 32) else c.

Fixpoint any_case (s : string) : list string :=
  match s with
  | EmptyString => [EmptyString]
  | String c s' =>
      List.flat_map (fun t => [String c t; String (upper_ascii c) t])
        (any_case s')
  end.

(** The regular files of [w'] are those of [w], with the same bytes. *)
Definition files_unchanged (w w' : World) : Prop :=
  forall loc data,
    fs w' !! loc = Some (File data) <-> fs w !! loc = Some (File data).

Section Fases.
Variables (W : Whisper) (ruta_mp3 : PathLike) (ruta_txt : option PathLike)
  (modelo : string) (lenguaje : option string)
  (opciones : gmap string pyval).

(** Lines 45 to 54 went through from [w]: the source is a regular file,
    the destination is [d] and its parent directory was made (or was
    there), leaving the world [w1]. *)
Definition preparada (w : World) (d : Path) (w1 : World) : Prop :=
  is_file w (Path_ ruta_mp3) = true /\
  destino (Path_ ruta_mp3) ruta_txt w = (Ok d, w) /\
  mkdir (parent d) w = (Ok tt, w1).

(** The world in which [load_model] runs, and the one in which
    [transcribe] runs. *)
Definition al_cargar (w1 : World) : World := log (ELoadModel modelo) w1.

Definition al_transcribir (w1 : World) : World :=
  log (ETranscribe (str (Path_ ruta_mp3)) lenguaje opciones) (al_cargar w1).

(** Lines 57 to 62 went through as well: the model was loaded, the call
    was well-formed and the model returned [resultado]; [w3] is the
    world at that point. *)
Definition respondida (w : World) (d : Path) (w3 : World)
  (resultado : gmap string pyval) : Prop :=
  exists w1 m,
    preparada w d w1 /\
    load_model W modelo (al_cargar w1) = inr m /\
    opciones !! "language" = None /\
    w3 = al_transcribir w1 /\
    transcribe W m (str (Path_ ruta_mp3)) lenguaje opciones w3 = inr resultado.

(** Every way a call can end, one constructor per exit of the function
    body; [ejecucion w r w'] is proved below to hold exactly when the
    call from [w] yields [r] and leaves [w']. *)
Inductive ejecucion (w : World) : outcome Path -> World -> Prop :=
| ej_no_encontrado :
    is_file w (Path_ ruta_mp3) = false ->
    ejecucion w
      (Raise (FileNotFoundError (mensaje_no_encontrado (Path_ ruta_mp3)))) w
| ej_sin_nombre e :
    is_file w (Path_ ruta_mp3) = true ->
    destino (Path_ ruta_mp3) ruta_txt w = (Raise e, w) ->
    ejecucion w (Raise e) w
| ej_sin_directorio d e w1 :
    is_file w (Path_ ruta_mp3) = true ->
    destino (Path_ ruta_mp3) ruta_txt w = (Ok d, w) ->
    mkdir (parent d) w = (Raise e, w1) ->
    ejecucion w (Raise e) w1
| ej_sin_modelo d w1 e :
    preparada w d w1 ->
    load_model W modelo (al_cargar w1) = inl e ->
    ejecucion w (Raise e) (al_cargar w1)
| ej_opcion_repetida d w1 m v :
    preparada w d w1 ->
    load_model W modelo (al_cargar w1) = inr m ->
    opciones !! "language" = Some v ->
    ejecucion w
      (Raise (TypeError "got multiple values for keyword argument 'language'"))
      (al_cargar w1)
| ej_sin_transcripcion d w1 m e :
    preparada w d w1 ->
    load_model W modelo (al_cargar w1) = inr m ->
    opciones !! "language" = None ->
    transcribe W m (str (Path_ ruta_mp3)) lenguaje opciones (al_transcribir w1)
      = inl e ->
    ejecucion w (Raise e) (al_transcribir w1)
| ej_texto_no_str d w3 resultado v :
    respondida w d w3 resultado ->
    resultado !! "text" = Some v ->
    (forall s, v <> PStr s) ->
    ejecucion w (Raise (AttributeError "object has no attribute 'strip'")) w3
| ej_vacia d w3 resultado s :
    respondida w d w3 resultado ->
    default (PStr []) (resultado !! "text") = PStr s ->
    strip s = [] ->
    ejecucion w (Raise (ValueError mensaje_vacia)) w3
| ej_sin_abrir d w3 resultado s e :
    respondida w d w3 resultado ->
    default (PStr []) (resultado !! "text") = PStr s ->
    strip s <> [] ->
    open_w d w3 = (Raise e, w3) ->
    ejecucion w (Raise e) w3
| ej_sin_codificar d w3 resultado s loc w4 :
    respondida w d w3 resultado ->
    default (PStr []) (resultado !! "text") = PStr s ->
    strip s <> [] ->
    open_w d w3 = (Ok loc, w4) ->
    utf8_encode (strip s) = None ->
    ejecucion w (Raise (UnicodeEncodeError "surrogates not allowed")) w4
| ej_escrita d w3 resultado s loc w4 bs :
    respondida w d w3 resultado ->
    default (PStr []) (resultado !! "text") = PStr s ->
    strip s <> [] ->
    open_w d w3 = (Ok loc, w4) ->
    utf8_encode (strip s) = Some bs ->
    ejecucion w (Ok (resolve w d))
      (log (EWrite loc bs) (set_node loc (File bs) w4)).

End Fases.

(** ** Concrete scenarios *)

Module Escenario.

(** A model that loads and answers every request with [resultado]. *)
Definition whisper_fijo (resultado : gmap string pyval) : Whisper :=
  mkWhisper unit (fun _ _ => inr tt) (fun _ _ _ _ _ => inr resultado).

(** A model whose weights cannot be loaded. *)
Definition whisper_sin_pesos (e : exn) : Whisper :=
  mkWhisper unit (fun _ _ => inl e) (fun _ _ _ _ _ => inr ∅).

(** A model that loads and then fails to decode the audio. *)
Definition whisper_sin_audio (e : exn) : Whisper :=
  mkWhisper unit (fun _ _ => inr tt) (fun _ _ _ _ _ => inl e).

Definition hola : gmap string pyval :=
  {[ "text" := PStr (of_ascii " hola mundo" ++ [0x0A%N]);
     "language" := PStr (of_ascii "es") ]}.

Definition en_blanco : gmap string pyval :=
  {[ "text" := PStr [0x20; 0x0A; 0xA0; 0x3000]%N ]}.

Definition sin_texto : gmap string pyval :=
  {[ "language" := PStr (of_ascii "es") ]}.

Definition bytes_of_ascii (s : string) : list Byte.byte :=
  List.map byte_of_N (of_ascii s).

(** /home/u is the working directory; it holds audio/nota.mp3, a
    regular file [apuntes], an empty directory [listo] and an older
    transcript audio/viejo.txt. *)
Definition arbol : gmap (list string) node :=
  {[ ["home"] := Dir;
     ["u"; "home"] := Dir;
     ["audio"; "u"; "home"] := Dir;
     ["nota.mp3"; "audio"; "u"; "home"] := File (bytes_of_ascii "ID3");
     ["viejo.txt"; "audio"; "u"; "home"] := File (bytes_of_ascii "texto anterior");
     ["apuntes"; "u"; "home"] := File (bytes_of_ascii "lista");
     ["listo"; "u"; "home"] := Dir ]}.

Definition mundo : World := mkWorld arbol ["u"; "home"] [].

End Escenario.

(** * Supporting lemmas *)

Example parse_nota : Path_of_str "audio/nota.mp3" = mkPath "" ["audio"; "nota.mp3"].
Proof. reflexivity. Qed.

Example parse_messy : Path_of_str "//a/./b//../c/" = mkPath "//" ["a"; "b"; ".."; "c"].
Proof. reflexivity. Qed.

Example nota_txt :
  with_suffix (Path_of_str "audio/nota.mp3") ".txt" = inr (Path_of_str "audio/nota.txt").
Proof. reflexivity. Qed.

Example archive_txt :
  with_suffix (Path_of_str "/v/a.tar.gz") ".txt" = inr (Path_of_str "/v/a.tar.txt").
Proof. reflexivity. Qed.

Example hidden_txt :
  with_suffix (Path_of_str ".grabacion") ".txt" = inr (Path_of_str ".grabacion.txt").
Proof. reflexivity. Qed.

Example strip_hola : strip (of_ascii " hola mundo" ++ [0x0A%N]) = of_ascii "hola mundo".
Proof. reflexivity. Qed.

Example utf8_enye : utf8_encode [0xF1%N] = Some [Byte.xc3; Byte.xb1].
Proof. reflexivity. Qed.

Example utf8_surrogate : utf8_encode [0x61; 0xD800]%N = None.
Proof. reflexivity. Qed.

Example utf8_euro : utf8_encode [0x20AC%N] = Some [Byte.xe2; Byte.x82; Byte.xac].
Proof. reflexivity. Qed.

Example utf8_emoji :
  utf8_encode [0x1F600%N] = Some [Byte.xf0; Byte.x9f; Byte.x98; Byte.x80].
Proof. reflexivity. Qed.

Example strip_unicode_space :
  strip ([0x3000; 0xA0]%N ++ of_ascii "si" ++ [0x2028; 0x0D; 0x0A]%N) = of_ascii "si".
Proof. reflexivity. Qed.

Example str_of_empty : str (Path_of_str "") = ".".
Proof. reflexivity. Qed.

(** ** Running the monad *)

Section Run.
Context {A B : Type}.

Lemma bind_ok (m : M A) (k : A -> M B) w a w1 :
  m w = (Ok a, w1) -> (m ≫= k) w = k a w1.
Proof. intros H. unfold mbind, M_bind. now rewrite H. Qed.

Lemma bind_raise (m : M A) (k : A -> M B) w e w1 :
  m w = (Raise e, w1) -> (m ≫= k) w = (Raise e, w1).
Proof. intros H. unfold mbind, M_bind. now rewrite H. Qed.

Lemma bind_gets (f : World -> A) (k : A -> M B) w :
  (gets f ≫= k) w = k (f w) w.
Proof. reflexivity. Qed.

End Run.

(** ** Path resolution *)

Section Resolution.
Implicit Types (t : gmap (list string) node) (cur loc : list string).




(** Resolving one more component after a non-empty prefix. *)
Lemma namei_snoc t c' l c : forall cur,
  namei t cur ((c' :: l) ++ [c]) =
  match namei t cur (c' :: l) with
  | inl e => inl e
  | inr loc =>
      match lookup_node t loc with
      | Some Dir => inr (step loc c)
      | Some (File _) => inl ENOTDIR
      | None => inl ENOENT
      end
  end.
Proof.
  revert c'. induction l as [|b l IH]; intros c' cur.
  - simpl. destruct (lookup_node t (step cur c')) as [[d|]|]; reflexivity.
  - change (namei t cur ((c' :: b :: l) ++ [c])) with
      (match lookup_node t (step cur c') with
       | Some Dir => namei t (step cur c') ((b :: l) ++ [c])
       | Some (File _) => inl ENOTDIR
       | None => inl ENOENT
       end).
    change (namei t cur (c' :: b :: l)) with
      (match lookup_node t (step cur c') with
       | Some Dir => namei t (step cur c') (b :: l)
       | Some (File _) => inl ENOTDIR
       | None => inl ENOENT
       end).
    destruct (lookup_node t (step cur c')) as [[d|]|]; try reflexivity.
    apply IH.
Qed.

(** In a well-formed tree, a located place is an existing directory or
    a proper name directly under one. *)
Lemma namei_place t comps : wf_fs t -> forall cur loc,
  lookup_node t cur = Some Dir ->
  namei t cur comps = inr loc ->
  lookup_node t loc = Some Dir \/
  exists c l, loc = c :: l /\ String.eqb c ".." = false /\ lookup_node t l = Some Dir.
Proof.
  intros Hwf.
  assert (Hstep : forall cur c, lookup_node t cur = Some Dir ->
            lookup_node t (step cur c) = Some Dir \/
            exists c0 l, step cur c = c0 :: l /\ String.eqb c0 ".." = false
                         /\ lookup_node t l = Some Dir).
  { intros cur c Hcur. unfold step. destruct (String.eqb c "..") eqn:E.
    - left. destruct cur as [|x l]; [done |]. simpl in Hcur |- *.
      apply Hwf in Hcur. tauto.
    - right. eauto. }
  induction comps as [|c cs IH]; intros cur loc Hcur; simpl.
  - intros [= <-]. now left.
  - destruct cs as [|c' cs'].
    + intros [= <-]. now apply Hstep.
    + destruct (lookup_node t (step cur c)) as [[d|]|] eqn:E; try discriminate.
      now apply IH.
Qed.


End Resolution.

(** ** Directory creation *)

Section Creation.

Lemma creates_app w d1 w1 d2 w2 :
  creates w d1 w1 -> creates w1 d2 w2 -> creates w (d1 ++ d2) w2.
Proof.
  induction 1 as [|w loc dirs w1 Hnone _ IH]; intros H2; simpl; [done|].
  constructor; auto.
Qed.

Lemma creates_cwd w dirs w1 : creates w dirs w1 -> cwd w1 = cwd w.
Proof. induction 1 as [|w loc dirs w1 _ _ IH]; [done | now rewrite IH]. Qed.

Lemma creates_trace w dirs w1 :
  creates w dirs w1 -> trace w1 = trace w ++ List.map EMkdir dirs.
Proof.
  induction 1 as [|w loc dirs w1 _ _ IH]; simpl.
  - now rewrite List.app_nil_r.
  - rewrite IH. simpl. now rewrite <- List.app_assoc.
Qed.

Lemma lookup_node_None_key t loc :
  lookup_node t loc = None -> t !! loc = None.
Proof. destruct loc; [discriminate | done]. Qed.

Lemma creates_subseteq w dirs w1 : creates w dirs w1 -> fs w ⊆ fs w1.
Proof.
  induction 1 as [|w loc dirs w1 Hnone _ IH]; [done |].
  etrans; [| exact IH]. simpl.
  apply insert_subseteq. now apply lookup_node_None_key.
Qed.

(** Only directories are added: regular files are the same before and
    after. *)
Lemma creates_new_nodes w dirs w1 : creates w dirs w1 ->
  forall loc n, fs w1 !! loc = Some n -> fs w !! loc = Some n \/ n = Dir.
Proof.
  induction 1 as [|w loc dirs w1 Hnone _ IH]; intros l n Hl; [now left |].
  apply IH in Hl as [Hl | ->]; [| now right].
  simpl in Hl. rewrite lookup_insert in Hl. case_decide.
  - right. congruence.
  - now left.
Qed.

End Creation.

(** ** The system calls *)

Section Syscalls.

Lemma os_mkdir_inv p w r w1 :
  os_mkdir p w = (r, w1) ->
  (exists loc, r = Ok tt /\ locate w p = inr loc /\
               lookup_node (fs w) loc = None /\
               w1 = log (EMkdir loc) (set_node loc Dir w)) \/
  (exists e, r = Raise (OSError e (str p)) /\ w1 = w).
Proof.
  unfold os_mkdir. destruct (locate w p) as [e|loc] eqn:El.
  - intros [= <- <-]. right. eauto.
  - destruct (lookup_node (fs w) loc) eqn:En; intros [= <- <-].
    + right. eauto.
    + left. eauto 6.
Qed.

Lemma os_mkdir_creates p w r w1 :
  os_mkdir p w = (r, w1) -> exists dirs, creates w dirs w1.
Proof.
  intros H. apply os_mkdir_inv in H as [(loc & _ & _ & Hn & ->) | (e & _ & ->)].
  - exists [loc]. constructor; [done | constructor].
  - exists []. constructor.
Qed.






End Syscalls.

(** ** What every run of [Path.mkdir] preserves

    [p.mkdir(parents=True, exist_ok=True)] changes the world only through
    [os.mkdir]: a reflexive and transitive relation that each call of
    [os.mkdir] respects is respected by the whole recursion. *)

Section MkdirRelation.
Variable R : World -> World -> Prop.
Hypothesis R_refl : forall w, R w w.
Hypothesis R_trans : forall w1 w2 w3, R w1 w2 -> R w2 w3 -> R w1 w3.

Lemma os_mkdir_rel p w r w1 :
  (forall w w1, os_mkdir p w = (Ok tt, w1) -> R w w1) ->
  os_mkdir p w = (r, w1) -> R w w1.
Proof.
  intros HR H. destruct r as [[]|e]; [eauto |].
  apply os_mkdir_inv in H as [(loc & [=] & _) | (e' & _ & ->)]. apply R_refl.
Qed.

Lemma handler_rel p e w r w1 :
  (if is_FileNotFoundError e then raise e
   else if is_OSError e then
     d ← gets (fun w => is_dir w p); if d : bool then mret tt else raise e
   else raise e) w = (r, w1) ->
  w1 = w.
Proof.
  destruct (is_FileNotFoundError e); [now intros [= _ <-] |].
  destruct (is_OSError e); [| now intros [= _ <-]].
  rewrite bind_gets. destruct (is_dir w p); now intros [= _ <-].
Qed.

Lemma mkdir_exist_ok_rel p w r w1 :
  (forall w w1, os_mkdir p w = (Ok tt, w1) -> R w w1) ->
  mkdir_exist_ok p w = (r, w1) -> R w w1.
Proof.
  intros HR. unfold mkdir_exist_ok, try_except.
  destruct (os_mkdir p w) as [[[]|e] w'] eqn:E.
  - intros [= <- <-]. eauto.
  - apply (os_mkdir_rel _ _ _ _ HR) in E. intros H.
    apply handler_rel in H as ->. exact E.
Qed.

(** Only the paths made of the first parts of [p] are ever passed to
    [os.mkdir]. *)
Lemma mkdir_parents_rel_on rt rparts :
  (forall l w w1, l `suffix_of` rparts ->
     os_mkdir (mkPath rt (List.rev l)) w = (Ok tt, w1) -> R w w1) ->
  forall w r w1, mkdir_parents rt rparts w = (r, w1) -> R w w1.
Proof.
  induction rparts as [|c rparent IH]; intros HR w r w1; simpl;
    unfold try_except;
    destruct (os_mkdir _ w) as [[[]|e] w'] eqn:E;
    try (intros [= <- <-]; now apply (HR _ _ _ (reflexivity _) E));
    apply (os_mkdir_rel _ _ _ _ (fun w w1 => HR _ w w1 (reflexivity _))) in E.
  - destruct (is_FileNotFoundError e); [now intros [= _ <-] |].
    destruct (is_OSError e); [| now intros [= _ <-]].
    rewrite bind_gets. destruct (is_dir w' _); now intros [= _ <-].
  - destruct (is_FileNotFoundError e).
    + destruct (mkdir_parents rt rparent w') as [[[]|e2] w2] eqn:E2.
      * rewrite (bind_ok _ _ _ _ _ E2). intros H.
        apply IH in E2; [| intros l ? ? Hl; apply HR; now apply suffix_cons_r].
        apply mkdir_exist_ok_rel in H;
          [| intros ? ?; apply (HR (c :: rparent)); reflexivity].
        eauto.
      * rewrite (bind_raise _ _ _ _ _ E2). intros [= <- <-].
        apply IH in E2; [| intros l ? ? Hl; apply HR; now apply suffix_cons_r].
        eauto.
    + destruct (is_OSError e); [| now intros [= _ <-]].
      rewrite bind_gets. destruct (is_dir w' _); now intros [= _ <-].
Qed.

Lemma mkdir_rel p w r w1 :
  (forall p w w1, os_mkdir p w = (Ok tt, w1) -> R w w1) ->
  mkdir p w = (r, w1) -> R w w1.
Proof. intros HR. apply mkdir_parents_rel_on. intros l ? ? _. apply HR. Qed.

End MkdirRelation.

Lemma mkdir_creates p w r w1 :
  mkdir p w = (r, w1) -> exists dirs, creates w dirs w1.
Proof.
  apply (mkdir_rel (fun w w1 => exists dirs, creates w dirs w1)).
  - intros. exists []. constructor.
  - intros ? ? ? [d1 H1] [d2 H2]. eauto using creates_app.
  - intros. eauto using os_mkdir_creates.
Qed.

(** ** Well-formed worlds stay well-formed *)

Section WellFormed.

Lemma wf_set_node w loc n e c l :
  wf_world w ->
  loc = c :: l -> String.eqb c ".." = false ->
  lookup_node (fs w) l = Some Dir ->
  (n = Dir \/ lookup_node (fs w) loc <> Some Dir) ->
  wf_world (log e (set_node loc n w)).
Proof.
  intros [Hwf Hcwd] -> Hc Hl Hn.
  assert (Hkeep : forall k, lookup_node (fs w) k = Some Dir ->
            lookup_node (<[c :: l := n]> (fs w)) k = Some Dir).
  { intros k Hk. destruct k as [|x k']; [done |]. simpl in *.
    rewrite lookup_insert. case_decide as Heq; [| done].
    destruct Hn as [-> | Hn]; [done |].
    exfalso. apply Hn. simpl. now rewrite Heq. }
  split; simpl.
  - intros k v Hk. rewrite lookup_insert in Hk. case_decide as Heq.
    + subst k. split; [done |]. now apply Hkeep.
    + apply Hwf in Hk. destruct k as [|x k']; [done |].
      destruct Hk as [Hx Hk']. split; [done |]. now apply Hkeep.
  - now apply Hkeep.
Qed.

Lemma start_dir w p : wf_world w -> lookup_node (fs w) (start w p) = Some Dir.
Proof. intros [_ H]. unfold start. now destruct (String.eqb (root p) ""). Qed.

Lemma locate_place w p loc :
  wf_world w -> locate w p = inr loc ->
  lookup_node (fs w) loc = Some Dir \/
  exists c l, loc = c :: l /\ String.eqb c ".." = false
              /\ lookup_node (fs w) l = Some Dir.
Proof.
  intros Hwf Hl. eapply namei_place; [apply Hwf | | exact Hl].
  now apply start_dir.
Qed.

Lemma os_mkdir_wf p w w1 :
  os_mkdir p w = (Ok tt, w1) -> wf_world w -> wf_world w1.
Proof.
  intros H Hwf.
  apply os_mkdir_inv in H as [(loc & _ & Hl & Hn & ->) | (e & [=] & _)].
  apply (locate_place _ _ _ Hwf) in Hl as [Hd | (c & l & -> & Hc & Hd)];
    [congruence |].
  eapply wf_set_node; eauto.
Qed.

Lemma mkdir_wf p w r w1 : mkdir p w = (r, w1) -> wf_world w -> wf_world w1.
Proof.
  apply (mkdir_rel (fun w w1 => wf_world w -> wf_world w1)); eauto.
  intros. eauto using os_mkdir_wf.
Qed.

End WellFormed.

(** ** Opening and writing the destination *)

Section Writing.

(** Resolution only looks at directories: it is unchanged by any update
    that keeps every directory. *)
Lemma namei_keeps t t' comps :
  (forall k, lookup_node t k = Some Dir -> lookup_node t' k = Some Dir) ->
  forall cur loc, namei t cur comps = inr loc -> namei t' cur comps = inr loc.
Proof.
  intros Hk. induction comps as [|c cs IH]; intros cur loc; simpl; [done |].
  destruct cs as [|c' cs']; [done |].
  destruct (lookup_node t (step cur c)) as [[d|]|] eqn:E; try discriminate.
  rewrite (Hk _ E). apply IH.
Qed.

Lemma insert_file_keeps t loc n :
  lookup_node t loc <> Some Dir ->
  forall k, lookup_node t k = Some Dir -> lookup_node (<[loc:=n]> t) k = Some Dir.
Proof.
  intros Hn k Hk. destruct k as [|x k']; [done |]. simpl in *.
  rewrite lookup_insert. case_decide as Heq; [| done].
  subst loc. now destruct Hn.
Qed.

Lemma open_w_inv p w r w1 :
  open_w p w = (r, w1) ->
  (exists loc, r = Ok loc /\ locate w p = inr loc /\
               lookup_node (fs w) loc <> Some Dir /\
               w1 = log (EOpenW loc) (set_node loc (File []) w)) \/
  (exists e, r = Raise (OSError e (str p)) /\ w1 = w).
Proof.
  unfold open_w. destruct (locate w p) as [e|loc] eqn:El.
  - intros [= <- <-]. right. eauto.
  - destruct (lookup_node (fs w) loc) as [[d|]|] eqn:En; intros [= <- <-].
    + left. exists loc. repeat split; congruence.
    + right. eauto.
    + left. exists loc. repeat split; congruence.
Qed.

Lemma open_w_cwd p w r w1 : open_w p w = (r, w1) -> cwd w1 = cwd w.
Proof.
  intros H. now apply open_w_inv in H as [(loc & _ & _ & _ & ->) | (e & _ & ->)].
Qed.



(** Reading back what was stored at a located place. *)
Lemma read_after_store w p loc n e bs :
  locate w p = inr loc -> lookup_node (fs w) loc <> Some Dir ->
  read_bytes (log e (set_node loc (File bs) (log n (set_node loc (File []) w)))) p
  = Some bs.
Proof.
  intros Hl Hn. unfold read_bytes, stat, locate, start in *. simpl.
  rewrite insert_insert_eq.
  rewrite (namei_keeps _ _ _ (insert_file_keeps _ loc (File bs) Hn) _ _ Hl).
  destruct loc as [|c l]; [now destruct Hn |]. simpl.
  now rewrite lookup_insert_eq.
Qed.

End Writing.

(** ** The function and its exits *)

Section Exits.
Variables (W : Whisper) (ruta_mp3 : PathLike) (ruta_txt : option PathLike)
  (modelo : string) (lenguaje : option string)
  (opciones : gmap string pyval).

Lemma resolve_cwd w w' p : cwd w' = cwd w -> resolve w' p = resolve w p.
Proof. intros H. unfold resolve, start. now rewrite H. Qed.

Lemma destino_pure p rt w r w' : destino p rt w = (r, w') -> w' = w.
Proof.
  unfold destino. destruct rt; [now intros [= _ <-] |].
  destruct (with_suffix p ".txt"); now intros [= _ <-].
Qed.

(** After lines 45 to 54 the call continues with the model. *)
Lemma run_preparada w d w1 :
  preparada ruta_mp3 ruta_txt w d w1 ->
  transcribir_mp3_a_txt W ruta_mp3 ruta_txt modelo lenguaje opciones w =
  (modelo_whisper ← whisper_load_model W modelo;
   resultado ← model_transcribe W modelo_whisper (str (Path_ ruta_mp3)) lenguaje opciones;
   texto ← py_strip (default (PStr []) (resultado !! "text"));
   match texto with
   | [] => raise (ValueError mensaje_vacia)
   | _ :: _ => _ ← write_text d texto; gets (fun w => resolve w d)
   end) w1.
Proof.
  intros (Hfile & Hd & Hmk). unfold transcribir_mp3_a_txt.
  rewrite bind_gets, Hfile. simpl.
  rewrite (bind_ok _ _ _ _ _ Hd). now rewrite (bind_ok _ _ _ _ _ Hmk).
Qed.

(** After lines 45 to 62 the call continues with the text. *)
Lemma run_respondida w d w3 resultado :
  respondida W ruta_mp3 ruta_txt modelo lenguaje opciones w d w3 resultado ->
  transcribir_mp3_a_txt W ruta_mp3 ruta_txt modelo lenguaje opciones w =
  (texto ← py_strip (default (PStr []) (resultado !! "text"));
   match texto with
   | [] => raise (ValueError mensaje_vacia)
   | _ :: _ => _ ← write_text d texto; gets (fun w => resolve w d)
   end) w3.
Proof.
  intros (w1 & m & Hprep & Hload & Hkw & -> & Htr).
  rewrite (run_preparada _ _ _ Hprep).
  assert (Hl : whisper_load_model W modelo w1 = (Ok m, al_cargar modelo w1)).
  { unfold whisper_load_model. fold (al_cargar modelo w1). now rewrite Hload. }
  rewrite (bind_ok _ _ _ _ _ Hl).
  assert (Ht : model_transcribe W m (str (Path_ ruta_mp3)) lenguaje opciones
                 (al_cargar modelo w1)
               = (Ok resultado, al_transcribir ruta_mp3 modelo lenguaje opciones w1)).
  { unfold model_transcribe. rewrite Hkw.
    fold (al_transcribir ruta_mp3 modelo lenguaje opciones w1). now rewrite Htr. }
  now rewrite (bind_ok _ _ _ _ _ Ht).
Qed.

Lemma run_sound w r w' :
  ejecucion W ruta_mp3 ruta_txt modelo lenguaje opciones w r w' -> transcribir_mp3_a_txt W ruta_mp3 ruta_txt modelo lenguaje opciones w = (r, w').
Proof.
  destruct 1 as [Hno | e Hf Hd | d e w1 Hf Hd Hmk | d w1 e Hp Hl
                | d w1 m v Hp Hl Hkw | d w1 m e Hp Hl Hkw Ht
                | d w3 res v Hr Hv Hns | d w3 res s Hr Hs He
                | d w3 res s e Hr Hs Hne Ho | d w3 res s loc w4 Hr Hs Hne Ho Hu
                | d w3 res s loc w4 bs Hr Hs Hne Ho Hu].
  - unfold transcribir_mp3_a_txt. now rewrite bind_gets, Hno.
  - unfold transcribir_mp3_a_txt. rewrite bind_gets, Hf. simpl.
    now rewrite (bind_raise _ _ _ _ _ Hd).
  - unfold transcribir_mp3_a_txt. rewrite bind_gets, Hf. simpl.
    rewrite (bind_ok _ _ _ _ _ Hd). now rewrite (bind_raise _ _ _ _ _ Hmk).
  - rewrite (run_preparada _ _ _ Hp). apply bind_raise.
    unfold whisper_load_model. fold (al_cargar modelo w1). now rewrite Hl.
  - rewrite (run_preparada _ _ _ Hp).
    assert (H : whisper_load_model W modelo w1 = (Ok m, al_cargar modelo w1)).
    { unfold whisper_load_model. fold (al_cargar modelo w1). now rewrite Hl. }
    rewrite (bind_ok _ _ _ _ _ H). apply bind_raise.
    unfold model_transcribe. now rewrite Hkw.
  - rewrite (run_preparada _ _ _ Hp).
    assert (H : whisper_load_model W modelo w1 = (Ok m, al_cargar modelo w1)).
    { unfold whisper_load_model. fold (al_cargar modelo w1). now rewrite Hl. }
    rewrite (bind_ok _ _ _ _ _ H). apply bind_raise.
    unfold model_transcribe. rewrite Hkw.
    fold (al_transcribir ruta_mp3 modelo lenguaje opciones w1). now rewrite Ht.
  - rewrite (run_respondida _ _ _ _ Hr). rewrite Hv. simpl.
    apply bind_raise. destruct v; try reflexivity. now destruct (Hns s).
  - rewrite (run_respondida _ _ _ _ Hr). rewrite Hs. simpl.
    unfold mbind, M_bind, mret, M_ret. now rewrite He.
  - rewrite (run_respondida _ _ _ _ Hr). rewrite Hs. simpl.
    unfold mbind at 1, M_bind at 1, mret, M_ret.
    destruct (strip s) as [|c t] eqn:Es; [done |].
    apply bind_raise. unfold write_text. now apply bind_raise.
  - rewrite (run_respondida _ _ _ _ Hr). rewrite Hs. simpl.
    unfold mbind at 1, M_bind at 1, mret, M_ret.
    destruct (strip s) as [|c t] eqn:Es; [done |].
    apply bind_raise. unfold write_text. rewrite (bind_ok _ _ _ _ _ Ho).
    now rewrite Hu.
  - rewrite (run_respondida _ _ _ _ Hr). rewrite Hs. simpl.
    unfold mbind at 1, M_bind at 1, mret, M_ret.
    destruct (strip s) as [|c t] eqn:Es; [done |].
    assert (H : write_text d (c :: t) w3
                = (Ok tt, log (EWrite loc bs) (set_node loc (File bs) w4))).
    { unfold write_text. rewrite (bind_ok _ _ _ _ _ Ho). now rewrite Hu. }
    rewrite (bind_ok _ _ _ _ _ H). unfold gets. do 2 f_equal.
    apply resolve_cwd. simpl.
    destruct Hr as (w1 & m & (_ & _ & Hmk) & _ & _ & -> & _).
    apply open_w_cwd in Ho. rewrite Ho. simpl.
    apply mkdir_creates in Hmk as [dirs Hc]. now apply creates_cwd in Hc.
Qed.

(** The function is total: every call ends in one of the exits. *)
Lemma run_total w :
  exists r w', ejecucion W ruta_mp3 ruta_txt modelo lenguaje opciones w r w'.
Proof.
  destruct (is_file w (Path_ ruta_mp3)) eqn:Hf; [| eauto using ejecucion].
  destruct (destino (Path_ ruta_mp3) ruta_txt w) as [[d|e] w0] eqn:Hd;
    pose proof (destino_pure _ _ _ _ _ Hd) as ->; [| eauto using ejecucion].
  destruct (mkdir (parent d) w) as [[[]|e] w1] eqn:Hmk; [| eauto using ejecucion].
  assert (Hp : preparada ruta_mp3 ruta_txt w d w1) by done.
  destruct (load_model W modelo (al_cargar modelo w1)) as [e|m] eqn:Hl;
    [eauto using ejecucion |].
  destruct (opciones !! "language") as [v|] eqn:Hkw; [eauto using ejecucion |].
  destruct (transcribe W m (str (Path_ ruta_mp3)) lenguaje opciones
              (al_transcribir ruta_mp3 modelo lenguaje opciones w1))
    as [e|res] eqn:Ht; [eauto using ejecucion |].
  assert (Hr : respondida W ruta_mp3 ruta_txt modelo lenguaje opciones w d
                 (al_transcribir ruta_mp3 modelo lenguaje opciones w1) res).
  { exists w1, m. done. }
  assert (Htext : (exists v, res !! "text" = Some v /\ forall s, v <> PStr s) \/
                  exists s, default (PStr []) (res !! "text") = PStr s).
  { destruct (res !! "text") as [[| | |s|]|]; simpl; eauto;
      left; eexists; (split; [reflexivity | discriminate]). }
  destruct Htext as [(v & Hv & Hns) | (s & Hs)]; [eauto using ejecucion |].
  destruct (strip s) as [|c t] eqn:Es; [eauto using ejecucion |].
  assert (Hne : strip s <> []) by (rewrite Es; discriminate).
  destruct (open_w d (al_transcribir ruta_mp3 modelo lenguaje opciones w1))
    as [[loc|e] w4] eqn:Ho.
  - destruct (utf8_encode (strip s)) as [bs|] eqn:Hu; eauto using ejecucion.
  - pose proof Ho as Ho'.
    apply open_w_inv in Ho' as [(loc & [=] & _) | (e' & _ & ->)].
    eauto using ejecucion.
Qed.

(** The exits describe the function exactly. *)
Lemma run_complete w r w' :
  transcribir_mp3_a_txt W ruta_mp3 ruta_txt modelo lenguaje opciones w = (r, w') -> ejecucion W ruta_mp3 ruta_txt modelo lenguaje opciones w r w'.
Proof.
  intros H. destruct (run_total w) as (r0 & w0 & He).
  pose proof (run_sound _ _ _ He) as Hs. rewrite Hs in H.
  now injection H as <- <-.
Qed.

End Exits.

(** ** Trimming *)

Section Trimming.

Lemma lstrip_blank s : Forall (fun c => isspace c = true) s -> lstrip s = [].
Proof. induction 1 as [|c s Hc _ IH]; simpl; [done | now rewrite Hc]. Qed.

Lemma lstrip_head s c t : lstrip s = c :: t -> isspace c = false.
Proof.
  induction s as [|a s IH]; simpl; [discriminate |].
  destruct (isspace a) eqn:Ea; [exact IH | now intros [= <- _]].
Qed.

Lemma lstrip_nil s : lstrip s = [] -> Forall (fun c => isspace c = true) s.
Proof.
  induction s as [|a s IH]; simpl; [constructor |].
  destruct (isspace a) eqn:Ea; [| discriminate]. auto.
Qed.

(** [strip] leaves nothing exactly when every code point is white. *)
Lemma strip_blank s : strip s = [] <-> Forall (fun c => isspace c = true) s.
Proof.
  unfold strip, rstrip. split.
  - intros H. apply (f_equal (@List.rev _)) in H.
    rewrite List.rev_involutive in H. simpl in H.
    apply lstrip_nil in H. apply lstrip_nil.
    destruct (lstrip s) as [|c t] eqn:E; [done |].
    apply lstrip_head in E.
    apply List.Forall_rev in H. rewrite List.rev_involutive in H.
    inversion H; congruence.
  - intros H. now rewrite (lstrip_blank _ H).
Qed.

End Trimming.

(** ** Encodable texts *)

Section Encoding.






(** ASCII text is stored byte for byte. *)
Lemma utf8_encode_ascii s :
  Forall (fun c => (c < 0x80)%N) s ->
  utf8_encode s = Some (List.map byte_of_N s).
Proof.
  induction 1 as [|c s Hc _ IH]; simpl; [done |].
  unfold utf8_encode_cp. apply N.ltb_lt in Hc. now rewrite Hc, IH.
Qed.

End Encoding.

(** ** Frames *)

Lemma creates_files_unchanged w dirs w1 :
  creates w dirs w1 -> files_unchanged w w1.
Proof.
  intros Hc loc data. split.
  - intros H. apply (creates_new_nodes _ _ _ Hc) in H as [H | [=]]. exact H.
  - intros H. eapply lookup_weaken; [exact H |]. eapply creates_subseteq; eauto.
Qed.

Lemma preparada_creates ruta_mp3 ruta_txt w d w1 :
  preparada ruta_mp3 ruta_txt w d w1 -> exists dirs, creates w dirs w1.
Proof. intros (_ & _ & Hmk). eauto using mkdir_creates. Qed.

(** ** Resolved paths *)

Section Resolved.





End Resolved.

(** ** The successful exit *)

Section Success.
Variables (W : Whisper) (ruta_mp3 : PathLike) (ruta_txt : option PathLike)
  (modelo : string) (lenguaje : option string)
  (opciones : gmap string pyval).


Lemma respondida_wf w d w3 resultado :
  respondida W ruta_mp3 ruta_txt modelo lenguaje opciones w d w3 resultado ->
  wf_world w -> wf_world w3.
Proof.
  intros (w1 & m & (_ & _ & Hmk) & _ & _ & -> & _) Hwf.
  apply (mkdir_wf _ _ _ _ Hmk Hwf).
Qed.

(** What the last two lines do once the destination can be opened. *)
Lemma written_world w3 d loc bs :
  wf_world w3 -> locate w3 d = inr loc ->
  lookup_node (fs w3) loc <> Some Dir ->
  let w' := log (EWrite loc bs)
              (set_node loc (File bs) (log (EOpenW loc) (set_node loc (File []) w3))) in
  wf_world w' /\ locate w' d = inr loc /\
  lookup_node (fs w') loc = Some (File bs).
Proof.
  intros Hwf Hl Hn w'.
  destruct (locate_place _ _ _ Hwf Hl) as [Hd | (c & l & -> & Hc & Hd)];
    [congruence |].
  assert (Hwf4 : wf_world (log (EOpenW (c :: l)) (set_node (c :: l) (File []) w3))).
  { eapply wf_set_node; eauto. }
  split; [| split].
  - eapply wf_set_node; eauto.
    + simpl. now apply insert_file_keeps.
    + right. simpl. rewrite lookup_insert_eq. discriminate.
  - unfold locate, start in *. simpl. rewrite insert_insert_eq.
    apply (namei_keeps _ _ _ (insert_file_keeps _ (c :: l) (File bs) Hn) _ _ Hl).
  - simpl. now rewrite lookup_insert_eq.
Qed.

End Success.

Section SuccessExit.
Variables (W : Whisper) (ruta_mp3 : PathLike) (ruta_txt : option PathLike)
  (modelo : string) (lenguaje : option string)
  (opciones : gmap string pyval).


End SuccessExit.

(** ** The derived destination *)

Section Suffix.

Lemma length_drop n : forall s,
  String.length (Str.drop n s) = String.length s - n.
Proof.
  induction n as [|n IH]; intros [|a s]; simpl; auto with arith.
Qed.


(** [with_suffix(".txt")] keeps the root and every component but the
    last, and replaces the last by its stem followed by ".txt". *)
Lemma with_suffix_txt p d :
  with_suffix p ".txt" = inr d ->
  root d = root p /\
  parts d = List.removelast (parts p) ++ [stem p +:+ ".txt"].
Proof.
  unfold with_suffix. simpl.
  destruct (String.eqb (name p) ""); [discriminate |].
  intros [= <-]. simpl. split; [done |]. do 2 f_equal.
  unfold suffix, stem.
  destruct (Str.rfind "." (name p)) as [i|]; [| done].
  destruct ((0 <? i)%nat && (i <? String.length (name p) - 1)%nat) eqn:E; [| done].
  apply andb_prop in E as [_ E]. apply Nat.ltb_lt in E.
  destruct (String.eqb (Str.drop i (name p)) "") eqn:Ed.
  - apply String.eqb_eq in Ed. apply (f_equal String.length) in Ed.
    rewrite length_drop in Ed. simpl in Ed. lia.
  - rewrite length_drop. do 2 f_equal. lia.
Qed.




End Suffix.

(** ** The destination always exists for a parsed source *)

Section Derived.

Lemma Path_of_str_wf s : wf_path (Path_of_str s).
Proof.
  unfold wf_path, Path_of_str. destruct (splitroot s) as [rt rel]. simpl.
  apply List.Forall_forall. intros x Hx. now apply List.filter_In in Hx.
Qed.

(** Line 50 cannot raise: a path that names a regular file has a last
    component, and a parsed path has no empty component. *)
Lemma destino_total p rt w :
  wf_world w -> wf_path p -> is_file w p = true ->
  exists d, destino p rt w = (Ok d, w).
Proof.
  intros Hwf Hp Hf. destruct rt as [x|]; [simpl; eauto |].
  unfold destino, with_suffix. simpl.
  assert (Hn : String.eqb (name p) "" = false).
  { unfold name, wf_path in *.
    destruct (parts p) as [|c l _] eqn:Ep using List.rev_ind.
    - unfold is_file, stat, locate in Hf. rewrite Ep in Hf. simpl in Hf.
      now rewrite (start_dir w p Hwf) in Hf.
    - rewrite List.last_last. apply Forall_app in Hp as [_ Hc].
      inversion Hc as [|? ? Hk _]; subst. unfold keep_part in Hk.
      apply andb_prop in Hk as [Hk _]. now apply negb_true_iff in Hk. }
  rewrite Hn. eauto.
Qed.

End Derived.

(** ** Created directories *)

Section Created.




End Created.

(** ** The order of effects *)

Section Order.
Variables (W : Whisper) (ruta_mp3 : PathLike) (ruta_txt : option PathLike)
  (modelo : string) (lenguaje : option string)
  (opciones : gmap string pyval).

(** The events a call adds to the trace: directory creations first, then
    an initial segment of load, transcribe, open, write. *)
Lemma ejecucion_trace w r w' :
  ejecucion W ruta_mp3 ruta_txt modelo lenguaje opciones w r w' ->
  exists dirs rest loc bs,
    trace w' = trace w ++ List.map EMkdir dirs ++ rest /\
    rest `prefix_of` [ELoadModel modelo;
                      ETranscribe (str (Path_ ruta_mp3)) lenguaje opciones;
                      EOpenW loc; EWrite loc bs].
Proof.
  assert (Hprep : forall d w1, preparada ruta_mp3 ruta_txt w d w1 ->
            forall rest, exists dirs,
              trace w1 ++ rest = trace w ++ List.map EMkdir dirs ++ rest).
  { intros d w1 Hp rest. apply preparada_creates in Hp as [dirs Hc].
    exists dirs. rewrite (creates_trace _ _ _ Hc). now rewrite <- List.app_assoc. }
  assert (Hresp : forall d w3 res,
            respondida W ruta_mp3 ruta_txt modelo lenguaje opciones w d w3 res ->
            forall rest, exists dirs,
              trace w3 ++ rest = trace w ++ List.map EMkdir dirs ++
                [ELoadModel modelo; ETranscribe (str (Path_ ruta_mp3)) lenguaje opciones] ++ rest).
  { intros d w3 res (w1 & m & Hp & _ & _ & -> & _) rest.
    destruct (Hprep _ _ Hp
      ([ELoadModel modelo; ETranscribe (str (Path_ ruta_mp3)) lenguaje opciones] ++ rest))
      as [dirs Hd].
    exists dirs. rewrite <- Hd. simpl. now rewrite <- !List.app_assoc. }
  destruct 1 as [Hno | e Hf Hd | d e w1 Hf Hd Hmk | d w1 e Hp Hl
                | d w1 m v Hp Hl Hkw | d w1 m e Hp Hl Hkw Ht
                | d w3 res v Hr Hv Hns | d w3 res s Hr Hs He
                | d w3 res s e Hr Hs Hne Ho | d w3 res s loc w4 Hr Hs Hne Ho Hu
                | d w3 res s loc w4 bs Hr Hs Hne Ho Hu].
  - exists [], [], [], []. split; [now rewrite List.app_nil_r | apply prefix_nil].
  - exists [], [], [], []. split; [now rewrite List.app_nil_r | apply prefix_nil].
  - apply mkdir_creates in Hmk as [dirs Hc]. exists dirs, [], [], [].
    split; [| apply prefix_nil].
    rewrite (creates_trace _ _ _ Hc). now rewrite List.app_nil_r.
  - destruct (Hprep _ _ Hp [ELoadModel modelo]) as [dirs Hd].
    exists dirs, [ELoadModel modelo], [], []. split; [exact Hd |].
    now exists [ETranscribe (str (Path_ ruta_mp3)) lenguaje opciones; EOpenW []; EWrite [] []].
  - destruct (Hprep _ _ Hp [ELoadModel modelo]) as [dirs Hd].
    exists dirs, [ELoadModel modelo], [], []. split; [exact Hd |].
    now exists [ETranscribe (str (Path_ ruta_mp3)) lenguaje opciones; EOpenW []; EWrite [] []].
  - destruct (Hprep _ _ Hp
      [ELoadModel modelo; ETranscribe (str (Path_ ruta_mp3)) lenguaje opciones]) as [dirs Hd].
    exists dirs, [ELoadModel modelo; ETranscribe (str (Path_ ruta_mp3)) lenguaje opciones],
      [], [].
    split; [simpl; rewrite <- Hd; now rewrite <- List.app_assoc |].
    now exists [EOpenW []; EWrite [] []].
  - destruct (Hresp _ _ _ Hr []) as [dirs Hd]. rewrite List.app_nil_r in Hd.
    exists dirs, [ELoadModel modelo; ETranscribe (str (Path_ ruta_mp3)) lenguaje opciones],
      [], [].
    split; [exact Hd | now exists [EOpenW []; EWrite [] []]].
  - destruct (Hresp _ _ _ Hr []) as [dirs Hd]. rewrite List.app_nil_r in Hd.
    exists dirs, [ELoadModel modelo; ETranscribe (str (Path_ ruta_mp3)) lenguaje opciones],
      [], [].
    split; [exact Hd | now exists [EOpenW []; EWrite [] []]].
  - destruct (Hresp _ _ _ Hr []) as [dirs Hd]. rewrite List.app_nil_r in Hd.
    exists dirs, [ELoadModel modelo; ETranscribe (str (Path_ ruta_mp3)) lenguaje opciones],
      [], [].
    split; [exact Hd | now exists [EOpenW []; EWrite [] []]].
  - apply open_w_inv in Ho as [(loc' & [= <-] & _ & _ & ->) | (e & [=] & _)].
    destruct (Hresp _ _ _ Hr [EOpenW loc]) as [dirs Hd].
    exists dirs, [ELoadModel modelo; ETranscribe (str (Path_ ruta_mp3)) lenguaje opciones;
                  EOpenW loc], loc, [].
    split; [exact Hd | now exists [EWrite loc []]].
  - apply open_w_inv in Ho as [(loc' & [= <-] & _ & _ & ->) | (e & [=] & _)].
    destruct (Hresp _ _ _ Hr [EOpenW loc; EWrite loc bs]) as [dirs Hd].
    exists dirs, [ELoadModel modelo; ETranscribe (str (Path_ ruta_mp3)) lenguaje opciones;
                  EOpenW loc; EWrite loc bs], loc, bs.
    split; [| done]. simpl in *. rewrite <- Hd. now rewrite <- List.app_assoc.
Qed.

Lemma preparada_det w d w1 d' w1' :
  preparada ruta_mp3 ruta_txt w d w1 -> preparada ruta_mp3 ruta_txt w d' w1' ->
  d' = d /\ w1' = w1.
Proof.
  intros (_ & Hd & Hmk) (_ & Hd' & Hmk').
  rewrite Hd in Hd'. injection Hd' as <-.
  rewrite Hmk in Hmk'. now injection Hmk' as <-.
Qed.

(** Once the directory is there: what the rest of the call adds. *)
Lemma after_preparada w d w1 r w' :
  preparada ruta_mp3 ruta_txt w d w1 ->
  transcribir_mp3_a_txt W ruta_mp3 ruta_txt modelo lenguaje opciones w = (r, w') ->
  exists rest,
    trace w' = trace w1 ++ rest /\
    List.head rest = Some (ELoadModel modelo) /\
    (forall loc, ~ List.In (EMkdir loc) rest) /\
    cwd w' = cwd w1 /\
    (forall k, lookup_node (fs w1) k = Some Dir -> lookup_node (fs w') k = Some Dir) /\
    (forall p, r = Ok p ->
       exists resultado s bs,
         respondida W ruta_mp3 ruta_txt modelo lenguaje opciones w d
           (al_transcribir ruta_mp3 modelo lenguaje opciones w1) resultado /\
         default (PStr []) (resultado !! "text") = PStr s /\
         utf8_encode (strip s) = Some bs /\
         read_bytes w' d = Some bs).
Proof.
  intros Hp Hrun. apply run_complete in Hrun.
  pose proof Hp as (Hfile & Hdest & Hmkdir).
  assert (Hresp : forall d' w3 res,
            respondida W ruta_mp3 ruta_txt modelo lenguaje opciones w d' w3 res ->
            d' = d /\ w3 = al_transcribir ruta_mp3 modelo lenguaje opciones w1).
  { intros d' w3 res (w1' & m & Hp' & _ & _ & -> & _).
    now destruct (preparada_det _ _ _ _ _ Hp Hp') as [-> ->]. }
  destruct Hrun as [Hno | e Hf Hd | d' e w1' Hf Hd Hmk | d' w1' e Hp' Hl
                | d' w1' m v Hp' Hl Hkw | d' w1' m e Hp' Hl Hkw Ht
                | d' w3 res v Hr Hv Hns | d' w3 res s Hr Hs He
                | d' w3 res s e Hr Hs Hne Ho | d' w3 res s loc w4 Hr Hs Hne Ho Hu
                | d' w3 res s loc w4 bs Hr Hs Hne Ho Hu];
    try congruence;
    try (destruct (preparada_det _ _ _ _ _ Hp Hp') as [-> ->]);
    try (destruct (Hresp _ _ _ Hr) as [-> ->]).
  - exists [ELoadModel modelo]. repeat split; try done.
    intros loc [[=] | []].
  - exists [ELoadModel modelo]. repeat split; try done.
    intros loc [[=] | []].
  - exists [ELoadModel modelo; ETranscribe (str (Path_ ruta_mp3)) lenguaje opciones].
    repeat split; try done.
    + simpl. now rewrite <- List.app_assoc.
    + intros loc [[=] | [[=] | []]].
  - exists [ELoadModel modelo; ETranscribe (str (Path_ ruta_mp3)) lenguaje opciones].
    repeat split; try done.
    + simpl. now rewrite <- List.app_assoc.
    + intros loc [[=] | [[=] | []]].
  - exists [ELoadModel modelo; ETranscribe (str (Path_ ruta_mp3)) lenguaje opciones].
    repeat split; try done.
    + simpl. now rewrite <- List.app_assoc.
    + intros loc [[=] | [[=] | []]].
  - exists [ELoadModel modelo; ETranscribe (str (Path_ ruta_mp3)) lenguaje opciones].
    repeat split; try done.
    + simpl. now rewrite <- List.app_assoc.
    + intros loc [[=] | [[=] | []]].
  - apply open_w_inv in Ho as [(loc' & [= <-] & Hl & Hn & ->) | (e & [=] & _)].
    exists [ELoadModel modelo; ETranscribe (str (Path_ ruta_mp3)) lenguaje opciones;
            EOpenW loc].
    repeat split; try done.
    + simpl. now rewrite <- !List.app_assoc.
    + intros l [[=] | [[=] | [[=] | []]]].
    + intros k Hk. simpl. now apply insert_file_keeps.
  - apply open_w_inv in Ho as [(loc' & [= <-] & Hl & Hn & ->) | (e & [=] & _)].
    exists [ELoadModel modelo; ETranscribe (str (Path_ ruta_mp3)) lenguaje opciones;
            EOpenW loc; EWrite loc bs].
    repeat split; try done.
    + simpl. now rewrite <- !List.app_assoc.
    + intros l [[=] | [[=] | [[=] | [[=] | []]]]].
    + intros k Hk. simpl. rewrite insert_insert_eq. now apply insert_file_keeps.
    + intros p _. exists res, s, bs. repeat split; try done.
      now apply read_after_store.
Qed.


End Order.

(** ** Creating a directory along a path without ".."

    Along such a path every prefix has a fixed place, and [mkdir] with
    [parents=True] succeeds as soon as no prefix names a regular file. *)

Section PlainPaths.
Implicit Types (t : gmap (list string) node).












End PlainPaths.

(** ** The spellings of "none" *)

Section Language.

Lemma lower_n a : Str.lower_ascii a = "n"%char -> a = "n"%char \/ a = "N"%char.
Proof.
  destruct a as [[] [] [] [] [] [] [] []]; vm_compute; intros H;
    try discriminate H; auto.
Qed.

Lemma lower_o a : Str.lower_ascii a = "o"%char -> a = "o"%char \/ a = "O"%char.
Proof.
  destruct a as [[] [] [] [] [] [] [] []]; vm_compute; intros H;
    try discriminate H; auto.
Qed.

Lemma lower_e a : Str.lower_ascii a = "e"%char -> a = "e"%char \/ a = "E"%char.
Proof.
  destruct a as [[] [] [] [] [] [] [] []]; vm_compute; intros H;
    try discriminate H; auto.
Qed.

(** [arg.lower() == "none"] holds exactly for the sixteen spellings of
    "none". *)
Lemma lower_none arg :
  String.eqb (Str.lower arg) "none" = true <-> List.In arg (any_case "none").
Proof.
  split.
  - intros H. apply String.eqb_eq in H.
    destruct arg as [|a [|b [|c [|d [|x arg]]]]]; try discriminate H.
    simpl in H. injection H as Ha Hb Hc Hd.
    apply lower_n in Ha, Hc. apply lower_o in Hb. apply lower_e in Hd.
    destruct Ha as [-> | ->], Hb as [-> | ->], Hc as [-> | ->], Hd as [-> | ->];
      vm_compute; tauto.
  - intros H. vm_compute in H.
    repeat (destruct H as [<- | H]; [reflexivity |]). destruct H.
Qed.

Lemma lenguaje_normalizado_spec arg :
  (List.In arg (any_case "none") -> Cli.lenguaje_normalizado arg = None) /\
  (~ List.In arg (any_case "none") -> Cli.lenguaje_normalizado arg = Some arg).
Proof.
  unfold Cli.lenguaje_normalizado.
  destruct (String.eqb (Str.lower arg) "none") eqn:E; split; intros H; try done.
  - exfalso. apply H. now apply lower_none.
  - apply lower_none in H. congruence.
Qed.

End Language.

(** ** The scenario is well-formed *)

Lemma wf_fsb_correct t : wf_fsb t = true -> wf_fs t.
Proof.
  unfold wf_fsb, wf_fs. rewrite List.forallb_forall.
  intros H loc n Hloc.
  specialize (H (loc, n)). simpl in H.
  assert (Hin : List.In (loc, n) (map_to_list t)).
  { apply list_elem_of_In. now apply elem_of_map_to_list. }
  apply H in Hin. unfold wf_nodeb in Hin.
  destruct loc as [|c l]; [discriminate |].
  apply andb_prop in Hin as [Hc Hl]. split.
  - now apply negb_true_iff in Hc.
  - destruct (lookup_node t l) as [[?|]|]; congruence.
Qed.

Lemma mundo_wf : wf_world Escenario.mundo.
Proof. split; [apply wf_fsb_correct |]; vm_compute; reflexivity. Qed.

(** ** From the answer of the model to the file *)

Section AfterAnswer.
Variables (W : Whisper) (ruta_mp3 : PathLike) (ruta_txt : option PathLike)
  (modelo : string) (lenguaje : option string)
  (opciones : gmap string pyval).


End AfterAnswer.

(** ** The destination is not among the directories made *)


(** * The specification, property by property *)

(** ** C1: what a successful call writes *)




(** ** C2: a missing source *)



(** ** C3: a blank transcript *)

(** C3.  When the model answers with a text that is empty or holds only
    white space, the call raises [ValueError] with the message of line
    67 and no regular file is created or changed; the trace ends with
    the transcription request, so the destination was never opened. *)
Theorem blank_transcript_fails W ruta_mp3 ruta_txt modelo lenguaje opciones
  w d w3 resultado s :
  respondida W ruta_mp3 ruta_txt modelo lenguaje opciones w d w3 resultado ->
  resultado !! "text" = Some (PStr s) ->
  Forall (fun c => isspace c = true) s ->
  transcribir_mp3_a_txt W ruta_mp3 ruta_txt modelo lenguaje opciones w
  = (Raise (ValueError mensaje_vacia), w3) /\
  files_unchanged w w3 /\
  exists dirs, trace w3 = trace w ++ List.map EMkdir dirs ++
    [ELoadModel modelo; ETranscribe (str (Path_ ruta_mp3)) lenguaje opciones].
Proof.
  intros Hr Ht Hs. split.
  - apply run_sound. eapply ej_vacia; eauto.
    + now rewrite Ht.
    + now apply strip_blank.
  - destruct Hr as (w1 & m & Hp & _ & _ & -> & _).
    apply preparada_creates in Hp as [dirs Hc]. split.
    + apply (creates_files_unchanged _ _ _ Hc).
    + exists dirs. simpl. rewrite (creates_trace _ _ _ Hc).
      now rewrite <- !List.app_assoc.
Qed.

Lemma blank_transcript_fails_witness :
  transcribir_mp3_a_txt (Escenario.whisper_fijo Escenario.en_blanco)
    (AsStr "audio/nota.mp3") (Some (AsStr "salida/nota.txt")) "base" (Some "es") ∅
    Escenario.mundo
  = (Raise (ValueError mensaje_vacia),
     mkWorld (<[ ["salida"; "u"; "home"] := Dir ]> Escenario.arbol) ["u"; "home"]
       [EMkdir ["salida"; "u"; "home"]; ELoadModel "base";
        ETranscribe "audio/nota.mp3" (Some "es") ∅]).
Proof.
  refine (proj1 (blank_transcript_fails
    (Escenario.whisper_fijo Escenario.en_blanco)
    (AsStr "audio/nota.mp3") (Some (AsStr "salida/nota.txt")) "base" (Some "es") ∅
    Escenario.mundo (Path_of_str "salida/nota.txt") _ Escenario.en_blanco
    [0x20; 0x0A; 0xA0; 0x3000]%N _ _ _)).
  - exists (mkWorld (<[ ["salida"; "u"; "home"] := Dir ]> Escenario.arbol)
              ["u"; "home"] [EMkdir ["salida"; "u"; "home"]]), tt.
    repeat split; vm_compute; reflexivity.
  - vm_compute; reflexivity.
  - repeat constructor.
Defined.

(** ** C4: the destination when none is given *)




(** ** C5: the value returned *)



(** ** C6: a destination in a directory that does not exist yet *)



(** ** C7: the language argument of the command line *)

(** C7.  In a run of the command line, every request the model receives
    carries no language hint when the --lenguaje argument is a spelling
    of "none" in any letter case, and carries the argument itself,
    unchanged, for every other value. *)
Theorem none_means_autodetect W args w r w' :
  Cli.main W args w = (r, w') ->
  exists evs,
    trace w' = trace w ++ evs /\
    forall a l o, List.In (ETranscribe a l o) evs ->
      (List.In (Cli.lenguaje args) (any_case "none") -> l = None) /\
      (~ List.In (Cli.lenguaje args) (any_case "none") ->
       l = Some (Cli.lenguaje args)).
Proof.
  unfold Cli.main. intros Hmain.
  destruct (transcribir_mp3_a_txt W (AsPath (Cli.audio args))
              (AsPath <$> Cli.salida args) (Cli.modelo args)
              (Cli.lenguaje_normalizado (Cli.lenguaje args)) ∅ w)
    as [[p|e] w1] eqn:Hrun.
  - rewrite (bind_ok _ _ _ _ _ Hrun) in Hmain. injection Hmain as <- <-.
    apply run_complete, ejecucion_trace in Hrun
      as (dirs & rest & loc & bs & Ht & Hpre).
    eexists. split; [simpl; rewrite Ht; rewrite <- !List.app_assoc; reflexivity |].
    intros a l o Hin.
    assert (l = Cli.lenguaje_normalizado (Cli.lenguaje args)) as ->.
    { rewrite !List.in_app_iff in Hin. destruct Hin as [Hin | [Hin | Hin]].
      - apply List.in_map_iff in Hin as (? & [=] & _).
      - destruct Hpre as [k Hk].
        assert (Hin' : List.In (ETranscribe a l o) (rest ++ k))
          by (apply List.in_app_iff; now left).
        rewrite <- Hk in Hin'. simpl in Hin'.
        destruct Hin' as [[=] | [[= _ <- _] | [[=] | [[=] | []]]]]. reflexivity.
      - destruct Hin as [[=] | []]. }
    apply lenguaje_normalizado_spec.
  - rewrite (bind_raise _ _ _ _ _ Hrun) in Hmain. injection Hmain as <- <-.
    apply run_complete, ejecucion_trace in Hrun
      as (dirs & rest & loc & bs & Ht & Hpre).
    eexists. split; [exact Ht |].
    intros a l o Hin.
    assert (l = Cli.lenguaje_normalizado (Cli.lenguaje args)) as ->.
    { rewrite !List.in_app_iff in Hin. destruct Hin as [Hin | Hin].
      - apply List.in_map_iff in Hin as (? & [=] & _).
      - destruct Hpre as [k Hk].
        assert (Hin' : List.In (ETranscribe a l o) (rest ++ k))
          by (apply List.in_app_iff; now left).
        rewrite <- Hk in Hin'. simpl in Hin'.
        destruct Hin' as [[=] | [[= _ <- _] | [[=] | [[=] | []]]]]. reflexivity. }
    apply lenguaje_normalizado_spec.
Qed.

Lemma none_means_autodetect_witness :
  exists evs,
    trace (snd (Cli.main (Escenario.whisper_fijo Escenario.hola)
                  (Cli.mkNamespace (Path_of_str "audio/nota.mp3") None "base" "NoNe")
                  Escenario.mundo))
    = trace Escenario.mundo ++ evs /\
    List.In (ETranscribe "audio/nota.mp3" None ∅) evs.
Proof.
  destruct (none_means_autodetect (Escenario.whisper_fijo Escenario.hola)
    (Cli.mkNamespace (Path_of_str "audio/nota.mp3") None "base" "NoNe")
    Escenario.mundo _ _ (surjective_pairing _)) as (evs & Ht & _).
  exists evs. split; [exact Ht |].
  vm_compute in Ht. subst evs. simpl. auto.
Defined.

(** ** C8: failures of the model *)

(** C8.  When [load_model] raises, or when [transcribe] raises, the call
    raises that very exception; the tree is the one left by the
    directory creation and no regular file is created or changed. *)
Theorem model_failure_propagates W ruta_mp3 ruta_txt modelo lenguaje opciones
  w d w1 e :
  preparada ruta_mp3 ruta_txt w d w1 ->
  (load_model W modelo (al_cargar modelo w1) = inl e \/
   exists m, load_model W modelo (al_cargar modelo w1) = inr m /\
             opciones !! "language" = None /\
             transcribe W m (str (Path_ ruta_mp3)) lenguaje opciones
               (al_transcribir ruta_mp3 modelo lenguaje opciones w1) = inl e) ->
  exists w',
    transcribir_mp3_a_txt W ruta_mp3 ruta_txt modelo lenguaje opciones w
    = (Raise e, w') /\
    fs w' = fs w1 /\ files_unchanged w w'.
Proof.
  intros Hp [Hl | (m & Hl & Hkw & Ht)].
  - exists (al_cargar modelo w1). split; [| split; [done |]].
    + apply run_sound. eapply ej_sin_modelo; eauto.
    + apply preparada_creates in Hp as [dirs Hc].
      apply (creates_files_unchanged _ _ _ Hc).
  - exists (al_transcribir ruta_mp3 modelo lenguaje opciones w1).
    split; [| split; [done |]].
    + apply run_sound. eapply ej_sin_transcripcion; eauto.
    + apply preparada_creates in Hp as [dirs Hc].
      apply (creates_files_unchanged _ _ _ Hc).
Qed.

Lemma model_failure_propagates_witness :
  exists w',
    transcribir_mp3_a_txt
      (Escenario.whisper_sin_audio (RuntimeError "Failed to load audio"))
      (AsStr "audio/nota.mp3") (Some (AsStr "salida/nota.txt")) "base" (Some "es") ∅
      Escenario.mundo
    = (Raise (RuntimeError "Failed to load audio"), w') /\
    fs w' = <[ ["salida"; "u"; "home"] := Dir ]> Escenario.arbol /\
    files_unchanged Escenario.mundo w'.
Proof.
  refine (model_failure_propagates
    (Escenario.whisper_sin_audio (RuntimeError "Failed to load audio"))
    (AsStr "audio/nota.mp3") (Some (AsStr "salida/nota.txt")) "base" (Some "es") ∅
    Escenario.mundo (Path_of_str "salida/nota.txt")
    (mkWorld (<[ ["salida"; "u"; "home"] := Dir ]> Escenario.arbol)
       ["u"; "home"] [EMkdir ["salida"; "u"; "home"]])
    (RuntimeError "Failed to load audio") _ _).
  - repeat split; vm_compute; reflexivity.
  - right. exists tt. repeat split; vm_compute; reflexivity.
Defined.

(** The same when the weights cannot be loaded: nothing was transcribed
    and the tree is untouched. *)
Example load_failure_propagates :
  transcribir_mp3_a_txt
    (Escenario.whisper_sin_pesos (RuntimeError "Model base not found"))
    (AsStr "audio/nota.mp3") None "base" (Some "es") ∅ Escenario.mundo
  = (Raise (RuntimeError "Model base not found"),
     mkWorld Escenario.arbol ["u"; "home"] [ELoadModel "base"]).
Proof. vm_compute; reflexivity. Qed.

(** ** C9: a result without text *)

(** C9.  When the result of the model has no "text" entry, the default
    of [get] stands in for it and the call ends as for a blank text:
    the same [ValueError], no file created or changed. *)
Theorem missing_text_field_fails W ruta_mp3 ruta_txt modelo lenguaje opciones
  w d w3 resultado :
  respondida W ruta_mp3 ruta_txt modelo lenguaje opciones w d w3 resultado ->
  resultado !! "text" = None ->
  transcribir_mp3_a_txt W ruta_mp3 ruta_txt modelo lenguaje opciones w
  = (Raise (ValueError mensaje_vacia), w3) /\
  files_unchanged w w3.
Proof.
  intros Hr Ht. split.
  - apply run_sound. eapply (ej_vacia _ _ _ _ _ _ _ _ _ _ []); eauto.
    now rewrite Ht.
  - destruct Hr as (w1 & m & Hp & _ & _ & -> & _).
    apply preparada_creates in Hp as [dirs Hc].
    apply (creates_files_unchanged _ _ _ Hc).
Qed.

Lemma missing_text_field_fails_witness :
  transcribir_mp3_a_txt (Escenario.whisper_fijo Escenario.sin_texto)
    (AsStr "audio/nota.mp3") None "base" (Some "es") ∅ Escenario.mundo
  = (Raise (ValueError mensaje_vacia),
     mkWorld Escenario.arbol ["u"; "home"]
       [ELoadModel "base"; ETranscribe "audio/nota.mp3" (Some "es") ∅]).
Proof.
  refine (proj1 (missing_text_field_fails
    (Escenario.whisper_fijo Escenario.sin_texto)
    (AsStr "audio/nota.mp3") None "base" (Some "es") ∅
    Escenario.mundo (Path_of_str "audio/nota.txt") _ Escenario.sin_texto _ _)).
  - exists Escenario.mundo, tt. repeat split; vm_compute; reflexivity.
  - vm_compute; reflexivity.
Defined.

(** ** C10: directories first, and what remains of them *)



(** An older transcript at the destination is replaced without notice. *)
Example older_transcript_overwritten :
  read_bytes Escenario.mundo (Path_of_str "audio/viejo.txt")
  = Some (Escenario.bytes_of_ascii "texto anterior") /\
  fst (transcribir_mp3_a_txt (Escenario.whisper_fijo Escenario.hola)
         (AsStr "audio/nota.mp3") (Some (AsStr "audio/viejo.txt")) "base"
         (Some "es") ∅ Escenario.mundo)
  = Ok (mkPath "/" ["home"; "u"; "audio"; "viejo.txt"]) /\
  read_bytes
    (snd (transcribir_mp3_a_txt (Escenario.whisper_fijo Escenario.hola)
            (AsStr "audio/nota.mp3") (Some (AsStr "audio/viejo.txt")) "base"
            (Some "es") ∅ Escenario.mundo))
    (Path_of_str "audio/viejo.txt")
  = Some (Escenario.bytes_of_ascii "hola mundo").
Proof. repeat split; vm_compute; reflexivity. Qed.

(** * Further properties of the program *)

(** ** The exits between the model and the file *)

(** X1.  When the forwarded options already hold a key "language", the
    call at lines 60 to 62 cannot be formed: once the destination is
    prepared and the model loaded, the function raises [TypeError], the
    model is never asked to transcribe, and no regular file is created
    or changed. *)
Theorem duplicate_language_option W ruta_mp3 ruta_txt modelo lenguaje opciones
  w d w1 m v :
  preparada ruta_mp3 ruta_txt w d w1 ->
  load_model W modelo (al_cargar modelo w1) = inr m ->
  opciones !! "language" = Some v ->
  exists msg w' dirs,
    transcribir_mp3_a_txt W ruta_mp3 ruta_txt modelo lenguaje opciones w
    = (Raise (TypeError msg), w') /\
    trace w' = trace w ++ List.map EMkdir dirs ++ [ELoadModel modelo] /\
    fs w' = fs w1 /\
    files_unchanged w w'.
Proof.
  intros Hp Hl Hkw.
  destruct (preparada_creates _ _ _ _ _ Hp) as [dirs Hc].
  eexists _, (al_cargar modelo w1), dirs. split; [| split; [| split]].
  - apply run_sound. eapply ej_opcion_repetida; eauto.
  - simpl. rewrite (creates_trace _ _ _ Hc). now rewrite <- List.app_assoc.
  - done.
  - apply (creates_files_unchanged _ _ _ Hc).
Qed.

Lemma duplicate_language_option_witness :
  exists msg w' dirs,
    transcribir_mp3_a_txt (Escenario.whisper_fijo Escenario.hola)
      (AsStr "audio/nota.mp3") None "base" (Some "es")
      {[ "language" := PStr (of_ascii "en") ]} Escenario.mundo
    = (Raise (TypeError msg), w') /\
    trace w' = trace Escenario.mundo ++ List.map EMkdir dirs ++ [ELoadModel "base"] /\
    fs w' = fs Escenario.mundo /\
    files_unchanged Escenario.mundo w'.
Proof.
  refine (duplicate_language_option (Escenario.whisper_fijo Escenario.hola)
    (AsStr "audio/nota.mp3") None "base" (Some "es")
    {[ "language" := PStr (of_ascii "en") ]} Escenario.mundo
    (Path_of_str "audio/nota.txt") Escenario.mundo tt
    (PStr (of_ascii "en")) _ _ _).
  - repeat split; vm_compute; reflexivity.
  - reflexivity.
  - vm_compute; reflexivity.
Defined.



(** X3.  When the model has answered with a usable text and the
    destination names a directory at that moment, [write_text] raises
    [IsADirectoryError] for the destination: the tree stays as the
    directory creation left it and no regular file is created or
    changed. *)
Theorem destination_is_directory W ruta_mp3 ruta_txt modelo lenguaje opciones
  w d w3 resultado s :
  respondida W ruta_mp3 ruta_txt modelo lenguaje opciones w d w3 resultado ->
  resultado !! "text" = Some (PStr s) ->
  strip s <> [] ->
  is_dir w3 d = true ->
  transcribir_mp3_a_txt W ruta_mp3 ruta_txt modelo lenguaje opciones w
  = (Raise (OSError EISDIR (str d)), w3) /\
  files_unchanged w w3.
Proof.
  intros Hr Ht Hne Hd. split.
  - apply run_sound. eapply ej_sin_abrir; eauto.
    + now rewrite Ht.
    + unfold open_w. unfold is_dir, stat in Hd.
      destruct (locate w3 d) as [e|loc]; [discriminate |].
      destruct (lookup_node (fs w3) loc) as [[?|]|]; try discriminate. done.
  - destruct Hr as (w1 & m & Hp & _ & _ & -> & _).
    apply preparada_creates in Hp as [dirs Hc].
    apply (creates_files_unchanged _ _ _ Hc).
Qed.

Lemma destination_is_directory_witness :
  transcribir_mp3_a_txt (Escenario.whisper_fijo Escenario.hola)
    (AsStr "audio/nota.mp3") (Some (AsStr "/home/u/audio/")) "base" (Some "es") ∅
    Escenario.mundo
  = (Raise (OSError EISDIR "/home/u/audio"),
     al_transcribir (AsStr "audio/nota.mp3") "base" (Some "es") ∅ Escenario.mundo) /\
  files_unchanged Escenario.mundo
    (al_transcribir (AsStr "audio/nota.mp3") "base" (Some "es") ∅ Escenario.mundo).
Proof.
  refine (destination_is_directory (Escenario.whisper_fijo Escenario.hola)
    (AsStr "audio/nota.mp3") (Some (AsStr "/home/u/audio/")) "base" (Some "es") ∅
    Escenario.mundo (Path_of_str "/home/u/audio/") _ Escenario.hola
    (of_ascii " hola mundo" ++ [0x0A%N]) _ _ _ _).
  - exists Escenario.mundo, tt. repeat split; vm_compute; reflexivity.
  - vm_compute; reflexivity.
  - vm_compute; discriminate.
  - vm_compute; reflexivity.
Defined.

(** ** The effects of a call, in order *)

(** X4.  Every call adds to the trace some directory creations followed
    by an initial segment of: load the model named [modelo]; transcribe
    with the source path as it was given (not resolved), the language
    hint and the extra options unchanged; open one file; write it.  So
    the model is loaded at most once and asked at most once, the file
    is opened only after the model has answered, and the call returns
    exactly when all four steps took place. *)
Theorem effects_in_order W ruta_mp3 ruta_txt modelo lenguaje opciones w r w' :
  transcribir_mp3_a_txt W ruta_mp3 ruta_txt modelo lenguaje opciones w = (r, w') ->
  exists dirs rest loc bs,
    trace w' = trace w ++ List.map EMkdir dirs ++ rest /\
    rest `prefix_of` [ELoadModel modelo;
                      ETranscribe (str (Path_ ruta_mp3)) lenguaje opciones;
                      EOpenW loc; EWrite loc bs] /\
    ((exists p, r = Ok p) <->
     rest = [ELoadModel modelo;
             ETranscribe (str (Path_ ruta_mp3)) lenguaje opciones;
             EOpenW loc; EWrite loc bs]).
Proof.
  intros Hrun. apply run_complete in Hrun.
  assert (Hfail : forall (e : exn) (l full : list Event),
            length l < length full ->
            (exists p : Path, @Raise Path e = Ok p) <-> l = full).
  { intros e l full Hlen. split; [intros [p [=]] | intros ->; lia]. }
  assert (Hprep : forall d w1, preparada ruta_mp3 ruta_txt w d w1 ->
            forall rest, exists dirs,
              trace w1 ++ rest = trace w ++ List.map EMkdir dirs ++ rest).
  { intros d w1 Hp rest. apply preparada_creates in Hp as [dirs Hc].
    exists dirs. rewrite (creates_trace _ _ _ Hc). now rewrite <- List.app_assoc. }
  assert (Hresp : forall d w3 res,
            respondida W ruta_mp3 ruta_txt modelo lenguaje opciones w d w3 res ->
            forall rest, exists dirs,
              trace w3 ++ rest = trace w ++ List.map EMkdir dirs ++
                [ELoadModel modelo;
                 ETranscribe (str (Path_ ruta_mp3)) lenguaje opciones] ++ rest).
  { intros d w3 res (w1 & m & Hp & _ & _ & -> & _) rest.
    destruct (Hprep _ _ Hp
      ([ELoadModel modelo;
        ETranscribe (str (Path_ ruta_mp3)) lenguaje opciones] ++ rest))
      as [dirs Hd].
    exists dirs. rewrite <- Hd. simpl. now rewrite <- !List.app_assoc. }
  destruct Hrun as [Hno | e Hf Hd | d e w1 Hf Hd Hmk | d w1 e Hp Hl
                | d w1 m v Hp Hl Hkw | d w1 m e Hp Hl Hkw Ht
                | d w3 res v Hr Hv Hns | d w3 res s Hr Hs He
                | d w3 res s e Hr Hs Hne Ho | d w3 res s loc w4 Hr Hs Hne Ho Hu
                | d w3 res s loc w4 bs Hr Hs Hne Ho Hu].
  - exists [], [], [], []. split; [now rewrite List.app_nil_r |].
    split; [apply prefix_nil | apply Hfail; simpl; lia].
  - exists [], [], [], []. split; [now rewrite List.app_nil_r |].
    split; [apply prefix_nil | apply Hfail; simpl; lia].
  - apply mkdir_creates in Hmk as [dirs Hc]. exists dirs, [], [], [].
    split; [rewrite (creates_trace _ _ _ Hc); now rewrite List.app_nil_r |].
    split; [apply prefix_nil | apply Hfail; simpl; lia].
  - destruct (Hprep _ _ Hp [ELoadModel modelo]) as [dirs Hd].
    exists dirs, [ELoadModel modelo], [], []. split; [exact Hd |].
    split; [| apply Hfail; simpl; lia].
    now exists [ETranscribe (str (Path_ ruta_mp3)) lenguaje opciones;
                EOpenW []; EWrite [] []].
  - destruct (Hprep _ _ Hp [ELoadModel modelo]) as [dirs Hd].
    exists dirs, [ELoadModel modelo], [], []. split; [exact Hd |].
    split; [| apply Hfail; simpl; lia].
    now exists [ETranscribe (str (Path_ ruta_mp3)) lenguaje opciones;
                EOpenW []; EWrite [] []].
  - destruct (Hprep _ _ Hp
      [ELoadModel modelo; ETranscribe (str (Path_ ruta_mp3)) lenguaje opciones])
      as [dirs Hd].
    exists dirs,
      [ELoadModel modelo; ETranscribe (str (Path_ ruta_mp3)) lenguaje opciones],
      [], [].
    split; [simpl; rewrite <- Hd; now rewrite <- List.app_assoc |].
    split; [now exists [EOpenW []; EWrite [] []] | apply Hfail; simpl; lia].
  - destruct (Hresp _ _ _ Hr []) as [dirs Hd]. rewrite List.app_nil_r in Hd.
    exists dirs,
      [ELoadModel modelo; ETranscribe (str (Path_ ruta_mp3)) lenguaje opciones],
      [], [].
    split; [exact Hd |].
    split; [now exists [EOpenW []; EWrite [] []] | apply Hfail; simpl; lia].
  - destruct (Hresp _ _ _ Hr []) as [dirs Hd]. rewrite List.app_nil_r in Hd.
    exists dirs,
      [ELoadModel modelo; ETranscribe (str (Path_ ruta_mp3)) lenguaje opciones],
      [], [].
    split; [exact Hd |].
    split; [now exists [EOpenW []; EWrite [] []] | apply Hfail; simpl; lia].
  - destruct (Hresp _ _ _ Hr []) as [dirs Hd]. rewrite List.app_nil_r in Hd.
    exists dirs,
      [ELoadModel modelo; ETranscribe (str (Path_ ruta_mp3)) lenguaje opciones],
      [], [].
    split; [exact Hd |].
    split; [now exists [EOpenW []; EWrite [] []] | apply Hfail; simpl; lia].
  - apply open_w_inv in Ho as [(loc' & [= <-] & _ & _ & ->) | (e & [=] & _)].
    destruct (Hresp _ _ _ Hr [EOpenW loc]) as [dirs Hd].
    exists dirs,
      [ELoadModel modelo; ETranscribe (str (Path_ ruta_mp3)) lenguaje opciones;
       EOpenW loc], loc, [].
    split; [exact Hd |].
    split; [now exists [EWrite loc []] | apply Hfail; simpl; lia].
  - apply open_w_inv in Ho as [(loc' & [= <-] & _ & _ & ->) | (e & [=] & _)].
    destruct (Hresp _ _ _ Hr [EOpenW loc; EWrite loc bs]) as [dirs Hd].
    exists dirs,
      [ELoadModel modelo; ETranscribe (str (Path_ ruta_mp3)) lenguaje opciones;
       EOpenW loc; EWrite loc bs], loc, bs.
    split; [simpl in *; rewrite <- Hd; now rewrite <- List.app_assoc |].
    split; [done |]. split; [done | eauto].
Qed.

Lemma effects_in_order_witness :
  exists dirs rest loc bs,
    trace (snd (transcribir_mp3_a_txt (Escenario.whisper_fijo Escenario.hola)
                  (AsStr "audio/../audio/nota.mp3") (Some (AsStr "salida/nota.txt"))
                  "small" None {[ "temperature" := PInt 0 ]} Escenario.mundo))
    = trace Escenario.mundo ++ List.map EMkdir dirs ++ rest /\
    rest `prefix_of` [ELoadModel "small";
                      ETranscribe "audio/../audio/nota.mp3" None
                        {[ "temperature" := PInt 0 ]};
                      EOpenW loc; EWrite loc bs] /\
    ((exists p,
        fst (transcribir_mp3_a_txt (Escenario.whisper_fijo Escenario.hola)
               (AsStr "audio/../audio/nota.mp3") (Some (AsStr "salida/nota.txt"))
               "small" None {[ "temperature" := PInt 0 ]} Escenario.mundo) = Ok p) <->
     rest = [ELoadModel "small";
             ETranscribe "audio/../audio/nota.mp3" None {[ "temperature" := PInt 0 ]};
             EOpenW loc; EWrite loc bs]).
Proof.
  exact (effects_in_order (Escenario.whisper_fijo Escenario.hola)
    (AsStr "audio/../audio/nota.mp3") (Some (AsStr "salida/nota.txt"))
    "small" None {[ "temperature" := PInt 0 ]} Escenario.mundo _ _
    (surjective_pairing _)).
Defined.

(** ** Failure of the directory creation *)





(** ** A text that cannot be encoded *)

Section Unencodable.






End Unencodable.



(** ** A source that already ends in .txt *)

Section SameFile.

Lemma take_drop_string n : forall s, Str.take n s +:+ Str.drop n s = s.
Proof.
  induction n as [|n IH]; intros [|a s]; try reflexivity.
  change (String a (Str.take n s +:+ Str.drop n s) = String a s). now rewrite IH.
Qed.

Lemma append_inv_head (a b c : string) : a +:+ b = a +:+ c -> b = c.
Proof. induction a as [|x a IH]; simpl; [done |]. intros [= H]. auto. Qed.

Lemma append_empty_r (s : string) : s +:+ "" = s.
Proof.
  induction s as [|a s IH]; [reflexivity |].
  change (String a (s +:+ "") = String a s). now rewrite IH.
Qed.

(** The name of a path is its stem followed by its suffix. *)
Lemma stem_suffix p : stem p +:+ suffix p = name p.
Proof.
  unfold stem, suffix.
  destruct (Str.rfind "." (name p)) as [i|].
  - destruct ((0 <? i)%nat && (i <? String.length (name p) - 1)%nat).
    + apply take_drop_string.
    + apply append_empty_r.
  - apply append_empty_r.
Qed.

Lemma destino_same p w d :
  destino p None w = (Ok d, w) -> (d = p <-> suffix p = ".txt").
Proof.
  unfold destino. destruct (with_suffix p ".txt") as [msg|d'] eqn:Hws;
    [discriminate |].
  intros [= ->]. destruct (with_suffix_txt _ _ Hws) as [Hroot Hparts].
  split.
  - intros ->. apply (append_inv_head (stem p)). rewrite stem_suffix.
    unfold name at 1. rewrite Hparts at 1. now rewrite List.last_last.
  - intros Hs. pose proof (stem_suffix p) as Hn. rewrite Hs in Hn.
    destruct p as [rt ps], d as [rt' ps']. simpl in *. subst rt'. f_equal.
    rewrite Hparts, Hn. unfold name. simpl.
    destruct ps as [|c l _] using List.rev_ind.
    + unfold suffix, name in Hs. simpl in Hs. discriminate.
    + now rewrite List.removelast_last, List.last_last.
Qed.

End SameFile.

(** X7.  When the destination is omitted, the derived destination is
    the source path itself exactly when the suffix of the source
    already is ".txt"; for any other source it is a different path. *)
Theorem derived_is_source_iff_txt ruta_mp3 w d :
  destino (Path_ ruta_mp3) None w = (Ok d, w) ->
  (d = Path_ ruta_mp3 <-> suffix (Path_ ruta_mp3) = ".txt").
Proof. apply destino_same. Qed.

Lemma derived_is_source_iff_txt_witness :
  (Path_of_str "audio/nota.txt" = Path_ (AsStr "audio/nota.mp3") <->
   suffix (Path_ (AsStr "audio/nota.mp3")) = ".txt") /\
  (Path_of_str "audio/viejo.txt" = Path_ (AsStr "audio/viejo.txt") <->
   suffix (Path_ (AsStr "audio/viejo.txt")) = ".txt").
Proof.
  split.
  - apply (derived_is_source_iff_txt (AsStr "audio/nota.mp3") Escenario.mundo).
    vm_compute; reflexivity.
  - apply (derived_is_source_iff_txt (AsStr "audio/viejo.txt") Escenario.mundo).
    vm_compute; reflexivity.
Defined.

(** X8.  Hence a call without destination on a source whose suffix is
    ".txt" writes over its own input: when it returns, the source file
    holds the UTF-8 bytes of the stripped transcript. *)
Theorem txt_source_overwritten W ruta_mp3 modelo lenguaje opciones w p w' :
  suffix (Path_ ruta_mp3) = ".txt" ->
  transcribir_mp3_a_txt W ruta_mp3 None modelo lenguaje opciones w = (Ok p, w') ->
  exists w3 resultado s bs,
    respondida W ruta_mp3 None modelo lenguaje opciones w (Path_ ruta_mp3) w3
      resultado /\
    default (PStr []) (resultado !! "text") = PStr s /\
    utf8_encode (strip s) = Some bs /\
    p = resolve w (Path_ ruta_mp3) /\
    read_bytes w' (Path_ ruta_mp3) = Some bs.
Proof.
  intros Hsuf Hrun. apply run_complete in Hrun.
  inversion Hrun as [| | | | | | | | |
                     | d w3 res s loc w4 bs Hr Hs Hne Ho Hu Hres Hw']; subst.
  assert (d = Path_ ruta_mp3) as ->.
  { destruct Hr as (w1 & m & (_ & Hd & _) & _). now apply (destino_same _ _ _ Hd). }
  apply open_w_inv in Ho as [(loc' & [= <-] & Hl & Hn & ->) | (e & [=] & _)].
  exists w3, res, s, bs. repeat split; try done.
  now apply read_after_store.
Qed.

Lemma txt_source_overwritten_witness :
  exists w3 resultado s bs,
    respondida (Escenario.whisper_fijo Escenario.hola) (AsStr "audio/viejo.txt")
      None "base" (Some "es") ∅ Escenario.mundo (Path_of_str "audio/viejo.txt")
      w3 resultado /\
    default (PStr []) (resultado !! "text") = PStr s /\
    utf8_encode (strip s) = Some bs /\
    mkPath "/" ["home"; "u"; "audio"; "viejo.txt"]
    = resolve Escenario.mundo (Path_of_str "audio/viejo.txt") /\
    read_bytes
      (snd (transcribir_mp3_a_txt (Escenario.whisper_fijo Escenario.hola)
              (AsStr "audio/viejo.txt") None "base" (Some "es") ∅ Escenario.mundo))
      (Path_of_str "audio/viejo.txt") = Some bs.
Proof.
  refine (txt_source_overwritten (Escenario.whisper_fijo Escenario.hola)
    (AsStr "audio/viejo.txt") "base" (Some "es") ∅ Escenario.mundo _ _ _ _).
  - vm_compute; reflexivity.
  - vm_compute; reflexivity.
Defined.

(** ** What a call leaves of the tree *)

Section Tree.
Variables (W : Whisper) (ruta_mp3 : PathLike) (ruta_txt : option PathLike)
  (modelo : string) (lenguaje : option string)
  (opciones : gmap string pyval).



End Tree.





(** ** A destination whose directory is already there *)

Lemma mkdir_parents_existing rt rparts w :
  is_dir w (mkPath rt (List.rev rparts)) = true ->
  mkdir_parents rt rparts w = (Ok tt, w).
Proof.
  destruct rparts as [|c rparent]; simpl; intros Hd;
    pose proof Hd as Hd'; unfold is_dir, stat in Hd';
    unfold try_except, os_mkdir;
    (destruct (locate w _) as [e|loc] eqn:Hl; [discriminate |]);
    (destruct (lookup_node (fs w) loc) as [[?|]|] eqn:Hn; try discriminate);
    simpl; rewrite bind_gets, Hd; reflexivity.
Qed.

Lemma mkdir_existing p w : is_dir w p = true -> mkdir p w = (Ok tt, w).
Proof.
  intros Hd. unfold mkdir. apply mkdir_parents_existing.
  rewrite List.rev_involutive. now destruct p.
Qed.

(** X11.  When the parent of the destination already is a directory,
    line 54 raises nothing and changes nothing: the call makes no
    directory at all and its first effect is the load of the model. *)
Theorem existing_parent_untouched W ruta_mp3 ruta_txt modelo lenguaje opciones
  w d r w' :
  is_file w (Path_ ruta_mp3) = true ->
  destino (Path_ ruta_mp3) ruta_txt w = (Ok d, w) ->
  is_dir w (parent d) = true ->
  transcribir_mp3_a_txt W ruta_mp3 ruta_txt modelo lenguaje opciones w = (r, w') ->
  mkdir (parent d) w = (Ok tt, w) /\
  exists rest,
    trace w' = trace w ++ ELoadModel modelo :: rest /\
    forall k, ~ List.In (EMkdir k) rest.
Proof.
  intros Hf Hd Hdir Hrun.
  pose proof (mkdir_existing _ _ Hdir) as Hmk. split; [exact Hmk |].
  assert (Hp : preparada ruta_mp3 ruta_txt w d w) by done.
  destruct (after_preparada _ _ _ _ _ _ _ _ _ _ _ Hp Hrun)
    as (rest & Htr & Hhd & Hnm & _).
  destruct rest as [|ev rest]; [discriminate |]. injection Hhd as ->.
  exists rest. split; [exact Htr |].
  intros k Hin. apply (Hnm k). now right.
Qed.

Lemma existing_parent_untouched_witness :
  mkdir (parent (Path_of_str "audio/nota.txt")) Escenario.mundo
  = (Ok tt, Escenario.mundo) /\
  exists rest,
    trace (snd (transcribir_mp3_a_txt (Escenario.whisper_fijo Escenario.en_blanco)
                  (AsStr "audio/nota.mp3") None "base" (Some "es") ∅ Escenario.mundo))
    = trace Escenario.mundo ++ ELoadModel "base" :: rest /\
    forall k, ~ List.In (EMkdir k) rest.
Proof.
  refine (existing_parent_untouched (Escenario.whisper_fijo Escenario.en_blanco)
    (AsStr "audio/nota.mp3") None "base" (Some "es") ∅ Escenario.mundo
    (Path_of_str "audio/nota.txt") _ _ _ _ _ (surjective_pairing _));
    vm_compute; reflexivity.
Defined.

(** ** Calling again *)




(** ** The tree stays well-formed *)

(** X13.  Every exit of the function leaves a well-formed tree: no node
    is ever made under something that is not a directory, no directory
    is replaced by a file, and the working directory stays a
    directory. *)
Theorem tree_stays_well_formed W ruta_mp3 ruta_txt modelo lenguaje opciones w r w' :
  wf_world w ->
  transcribir_mp3_a_txt W ruta_mp3 ruta_txt modelo lenguaje opciones w = (r, w') ->
  wf_world w'.
Proof.
  intros Hwf Hrun. apply run_complete in Hrun.
  assert (Hprep : forall d w1, preparada ruta_mp3 ruta_txt w d w1 -> wf_world w1).
  { intros d w1 (_ & _ & Hmk). exact (mkdir_wf _ _ _ _ Hmk Hwf). }
  destruct Hrun as [Hno | e Hf Hd | d e w1 Hf Hd Hmk | d w1 e Hp Hl
                | d w1 m v Hp Hl Hkw | d w1 m e Hp Hl Hkw Ht
                | d w3 res v Hr Hv Hns | d w3 res s Hr Hs He
                | d w3 res s e Hr Hs Hne Ho | d w3 res s loc w4 Hr Hs Hne Ho Hu
                | d w3 res s loc w4 bs Hr Hs Hne Ho Hu];
    try assumption;
    try exact (mkdir_wf _ _ _ _ Hmk Hwf);
    try exact (Hprep _ _ Hp);
    try exact (respondida_wf _ _ _ _ _ _ _ _ _ _ Hr Hwf).
  - pose proof (respondida_wf _ _ _ _ _ _ _ _ _ _ Hr Hwf) as Hwf3.
    apply open_w_inv in Ho as [(loc' & [= <-] & Hl & Hn & ->) | (e & [=] & _)].
    destruct (locate_place _ _ _ Hwf3 Hl) as [Hdir | (c & l & -> & Hc & Hdir)];
      [congruence |].
    eapply wf_set_node; eauto.
  - pose proof (respondida_wf _ _ _ _ _ _ _ _ _ _ Hr Hwf) as Hwf3.
    apply open_w_inv in Ho as [(loc' & [= <-] & Hl & Hn & ->) | (e & [=] & _)].
    apply (written_world _ _ _ bs Hwf3 Hl Hn).
Qed.

Lemma tree_stays_well_formed_witness :
  wf_world
    (snd (transcribir_mp3_a_txt (Escenario.whisper_fijo Escenario.hola)
            (AsStr "audio/nota.mp3") (Some (AsStr "a/b/../c/nota.txt")) "base"
            (Some "es") ∅ Escenario.mundo)).
Proof.
  exact (tree_stays_well_formed (Escenario.whisper_fijo Escenario.hola)
    (AsStr "audio/nota.mp3") (Some (AsStr "a/b/../c/nota.txt")) "base"
    (Some "es") ∅ Escenario.mundo _ _ mundo_wf (surjective_pairing _)).
Defined.

(** ** What the file holds *)

Section Trimmed.






End Trimmed.



(** ** The command line *)




(** ** A derived destination *)

Lemma is_file_parent_is_dir w p :
  wf_world w -> is_file w p = true -> is_dir w (parent p) = true.
Proof.
  intros [_ Hcwd] Hf. destruct p as [rt ps].
  unfold is_file, is_dir, stat, locate, parent, start in *. simpl in Hf |- *.
  assert (Hstart : lookup_node (fs w) (if String.eqb rt "" then cwd w else [])
                   = Some Dir) by now destruct (String.eqb rt "").
  set (st := if String.eqb rt "" then cwd w else []) in *.
  destruct ps as [|c l _] using List.rev_ind.
  - simpl in *. now rewrite Hstart in *.
  - rewrite List.removelast_last. destruct l as [|c' l].
    + simpl. now rewrite Hstart.
    + rewrite namei_snoc in Hf.
      destruct (namei (fs w) st (c' :: l)) as [e|loc]; [discriminate |].
      now destruct (lookup_node (fs w) loc) as [[bs|]|].
Qed.

(** X16.  When no destination is given, the text file is a sibling of
    the source: the derived path has the parent of the source, that
    parent is a directory already, and so line 54 makes nothing, on
    whatever exit the call takes no directory is created. *)
Theorem derived_destination_needs_no_directory W ruta_mp3 modelo lenguaje
  opciones w d r w' :
  wf_world w ->
  is_file w (Path_ ruta_mp3) = true ->
  destino (Path_ ruta_mp3) None w = (Ok d, w) ->
  transcribir_mp3_a_txt W ruta_mp3 None modelo lenguaje opciones w = (r, w') ->
  parent d = parent (Path_ ruta_mp3) /\
  is_dir w (parent d) = true /\
  exists evs, trace w' = trace w ++ evs /\ forall k, ~ List.In (EMkdir k) evs.
Proof.
  intros Hwf Hf Hd Hrun.
  assert (Hpar : parent d = parent (Path_ ruta_mp3)).
  { unfold destino in Hd.
    destruct (with_suffix (Path_ ruta_mp3) ".txt") as [msg|d'] eqn:Ew;
      [discriminate |].
    injection Hd as <-. apply with_suffix_txt in Ew as [Hr Hp].
    unfold parent. rewrite Hr, Hp. now rewrite List.removelast_last. }
  assert (Hdir : is_dir w (parent d) = true)
    by (rewrite Hpar; now apply is_file_parent_is_dir).
  split; [exact Hpar |]. split; [exact Hdir |].
  pose proof (mkdir_existing _ _ Hdir) as Hmk.
  assert (Hp : preparada ruta_mp3 None w d w) by done.
  destruct (after_preparada _ _ _ _ _ _ _ _ _ _ _ Hp Hrun)
    as (rest & Htr & _ & Hnm & _).
  exists rest. split; [exact Htr | exact Hnm].
Qed.

Lemma derived_destination_needs_no_directory_witness :
  parent (Path_of_str "audio/nota.txt") = parent (Path_ (AsStr "audio/nota.mp3")) /\
  is_dir Escenario.mundo (parent (Path_of_str "audio/nota.txt")) = true /\
  exists evs,
    trace (snd (transcribir_mp3_a_txt (Escenario.whisper_fijo Escenario.hola)
                  (AsStr "audio/nota.mp3") None "base" (Some "es") ∅ Escenario.mundo))
    = trace Escenario.mundo ++ evs /\
    forall k, ~ List.In (EMkdir k) evs.
Proof.
  refine (derived_destination_needs_no_directory
            (Escenario.whisper_fijo Escenario.hola)
            (AsStr "audio/nota.mp3") "base" (Some "es") ∅ Escenario.mundo
            (Path_of_str "audio/nota.txt") _ _ mundo_wf _ _ (surjective_pairing _)).
  - vm_compute; reflexivity.
  - vm_compute; reflexivity.
Defined.
